(* A shallow embedding of the orchestration core of bin/avd-runner.js
   (class AVDLauncher): discovery of the AVD inventory, the raw-keyboard
   and inquirer selectors, the launch-mode prompt and the three launch
   strategies, with the facts the specification states about them. *)

From Stdlib Require Import List String Ascii ZArith Lia Permutation Bool.
Import ListNotations.
Open Scope string_scope.

(* ------------------------------------------------------------------ *)
(** * JavaScript string primitives used by the code *)

Module JsString.

(** The characters [String.prototype.trim] removes, restricted to the
    ASCII range: tab, line feed, vertical tab, form feed, carriage
    return and space. *)
Definition is_ws (c : ascii) : bool :=
  let n := nat_of_ascii c in
  (Nat.leb 9 n && Nat.leb n 13) || Nat.eqb n 32.

Fixpoint ltrim (l : list ascii) : list ascii :=
  match l with
  | [] => []
  | c :: r => if is_ws c then ltrim r else l
  end.

(** [s.trim()] *)
Definition trim (s : string) : string :=
  string_of_list_ascii
    (rev (ltrim (rev (ltrim (list_ascii_of_string s))))).

Definition newline : ascii := ascii_of_nat 10.

(** [s.split('\n')]: the pieces between line feeds, an empty string
    giving [[""]]. *)
Fixpoint split_nl_aux (s : string) (cur : string) : list string :=
  match s with
  | EmptyString => [cur]
  | String c r =>
      if Ascii.eqb c newline then cur :: split_nl_aux r EmptyString
      else split_nl_aux r (cur ++ String c EmptyString)
  end.

Definition split_nl (s : string) : list string := split_nl_aux s EmptyString.

(** Decimal rendering of a number, as a template literal prints it. *)
Fixpoint digits (fuel n : nat) (acc : string) : string :=
  match fuel with
  | O => acc
  | S f =>
      let d := String (ascii_of_nat (48 + n mod 10)%nat) EmptyString in
      if Nat.ltb n 10 then d ++ acc else digits f (n / 10)%nat (d ++ acc)
  end.

Definition of_nat (n : nat) : string := digits (S n) n EmptyString.

End JsString.

(* ------------------------------------------------------------------ *)
(** * Promises, console output and process exit *)

(** The settled value of a promise: fulfilled with a value or rejected
    with the message of the error it was rejected with. *)
Inductive promise (A : Type) : Type :=
| Resolved (a : A)
| Rejected (err : string).
Arguments Resolved {A} a.
Arguments Rejected {A} err.

(** A line written by [console.log] or [console.error]. *)
Inductive console_line : Type :=
| Log (msg : string)
| Error (msg : string).

(* ------------------------------------------------------------------ *)
(** * getAVDList and printAVDs (lines 42-79) *)

(** The completion of [exec('emulator -list-avds', cb)]: Node passes an
    [Error] to the callback exactly when the child exits with a non-zero
    code; the error's message is [exec_message]. *)
Record exec_result : Type := {
  exit_code : Z;
  stdout : string;
  exec_message : string
}.

Definition exec_error (r : exec_result) : option string :=
  if Z.eqb (exit_code r) 0 then None else Some (exec_message r).

(** line 68: [stdout.trim().split('\n').filter(avd => avd.trim() !== '')] *)
Definition parse_avds (out : string) : list string :=
  filter (fun avd => negb (String.eqb (JsString.trim avd) ""))
         (JsString.split_nl (JsString.trim out)).

Definition getAVDList (r : exec_result) : list console_line * promise (list string) :=
  let fetching := [Log "🔍 Fetching available AVDs..."] in
  match exec_error r with
  | Some msg =>
      ((fetching ++
         [Error "❌ Error fetching AVDs. Make sure Android SDK is installed and emulator is in PATH.";
          Error (String.append "Error: " msg)])%list,
       Rejected msg)
  | None =>
      let avds := parse_avds (stdout r) in
      match avds with
      | [] =>
          ((fetching ++
             [Log "⚠️  No AVDs found. Please create AVDs using Android Studio first."])%list,
           Rejected "No AVDs found")
      | _ => (fetching, Resolved avds)
      end
  end.

Fixpoint numbered (i : nat) (avds : list string) : list console_line :=
  match avds with
  | [] => []
  | avd :: rest => Log (JsString.of_nat (S i) ++ ". " ++ avd) :: numbered (S i) rest
  end.

(** [printAVDs], followed as in listing mode (line 430) by
    [.then(() => process.exit(0))]; the [catch] exits with status 1. *)
Definition printAVDs_listing (r : exec_result) : list console_line * Z :=
  let '(logs, res) := getAVDList r in
  match res with
  | Rejected _ => (logs, 1%Z)
  | Resolved avds =>
      ((logs ++ [Log "📱 Available Android Virtual Devices:"] ++ numbered 0 avds ++
         [Log (String.append "📊 Total: " (String.append (JsString.of_nat (List.length avds)) " AVD(s)"))])%list,
       0%Z)
  end.

(* ------------------------------------------------------------------ *)
(** * The raw-keyboard selector, selectAVDsBuiltIn (lines 82-161) *)

Module BuiltIn.

(** The [key] object of a ['keypress'] event. *)
Record key : Type := { name : string; ctrl : bool }.

(** What the selector does to the terminal and the process. *)
Inductive ui_event : Type :=
| DisplayMenu
| Say (msg : string)
| SetRawMode (on : bool)
| ProcessExit (code : Z).

(** The closure state of [selectAVDsBuiltIn]: [this.avds], the
    [selected] array, [currentIndex], and whether stdin is in raw mode. *)
Record menu : Type := {
  avds : list string;
  selected : list bool;
  currentIndex : Z;
  raw : bool
}.

(** Where the selector stands after a key: still waiting on keys, the
    promise resolved with [this.selectedAVDs], or the process gone. *)
Inductive status : Type :=
| Waiting (m : menu)
| Confirmed (sel : list string) (m : menu)
| Exited (code : Z) (m : menu).

(** [selected[i]]: an index outside the array reads [undefined],
    which is falsy. *)
Definition get (l : list bool) (i : Z) : bool :=
  if (0 <=? i)%Z && (i <? Z.of_nat (List.length l))%Z
  then nth (Z.to_nat i) l false else false.

(** [selected[i] = b], for an index in range. Out of range this is a
    no-op here, while JavaScript extends the array for an index past its
    end (which [selected.filter(Boolean)] then counts) or adds a
    property for a negative one. The cursor only leaves the range when
    the inventory is empty; [getAVDList] rejects an empty inventory, so
    [run] never shows the selector for one. The model is faithful for a
    non-empty inventory. *)
Fixpoint set_nat (l : list bool) (i : nat) (b : bool) : list bool :=
  match l, i with
  | [], _ => []
  | _ :: r, O => b :: r
  | x :: r, S j => x :: set_nat r j b
  end.

Definition set (l : list bool) (i : Z) (b : bool) : list bool :=
  if (0 <=? i)%Z then set_nat l (Z.to_nat i) b else l.

(** [this.avds.filter((_, index) => selected[index])] *)
Fixpoint filter_checked (l : list string) (sel : list bool) (i : Z) : list string :=
  match l with
  | [] => []
  | avd :: r =>
      if get sel i then avd :: filter_checked r sel (i + 1)
      else filter_checked r sel (i + 1)
  end.

Definition checked_avds (m : menu) : list string :=
  filter_checked (avds m) (selected m) 0.

Definition with_index (m : menu) (i : Z) : menu :=
  {| avds := avds m; selected := selected m; currentIndex := i; raw := raw m |}.

Definition with_selected (m : menu) (s : list bool) : menu :=
  {| avds := avds m; selected := s; currentIndex := currentIndex m; raw := raw m |}.

Definition with_raw (m : menu) (b : bool) : menu :=
  {| avds := avds m; selected := selected m; currentIndex := currentIndex m; raw := b |}.

(** [handleKeypress] (lines 110-154). *)
Definition handleKeypress (m : menu) (k : option key) : list ui_event * status :=
  match k with
  | None => ([], Waiting m)
  | Some k =>
      let len := Z.of_nat (List.length (avds m)) in
      let ci := currentIndex m in
      if String.eqb (name k) "up" then
        ([DisplayMenu],
         Waiting (with_index m (if (ci >? 0)%Z then ci - 1 else len - 1)%Z))
      else if String.eqb (name k) "down" then
        ([DisplayMenu],
         Waiting (with_index m (if (ci <? len - 1)%Z then ci + 1 else 0)%Z))
      else if String.eqb (name k) "space" then
        ([DisplayMenu],
         Waiting (with_selected m (set (selected m) ci (negb (get (selected m) ci)))))
      else if String.eqb (name k) "return" then
        let selectedAVDs := checked_avds m in
        if Nat.eqb (List.length selectedAVDs) 0 then
          (* the message, then [setTimeout(() => displayMenu(), 1500)] *)
          ([Say "❌ Please select at least one AVD."; DisplayMenu], Waiting m)
        else
          ([SetRawMode false], Confirmed selectedAVDs (with_raw m false))
      else if String.eqb (name k) "q" then
        ([Say "👋 Goodbye!"; ProcessExit 0], Exited 0 m)
      else if String.eqb (name k) "c" then
        if ctrl k then ([Say "👋 Goodbye!"; ProcessExit 0], Exited 0 m)
        else ([], Waiting m)
      else ([], Waiting m)
  end.

(** The ['keypress'] listener of [this.rl], the terminal readline
    interface the constructor creates on stdin. It is added before
    [handleKeypress], so it runs first on every key. [rl] has no
    ['SIGINT'] listener, so on Ctrl-C it calls [rl.close()], which calls
    [setRawMode(false)]. Its line editing and echo are not modelled.
    Neither are two other keys:
    - Ctrl-D closes [rl] (so raw mode ends and stdin pauses) when its line
      buffer is empty, which depends on the characters typed before.
    - Ctrl-Z suspends the process, leaving raw mode, and restores raw
      mode when the process resumes.
    Keys carry no shift flag here. *)
Definition rl_keypress (m : menu) (k : option key) : list ui_event * menu :=
  match k with
  | Some k =>
      if String.eqb (name k) "c" && ctrl k then ([SetRawMode false], with_raw m false)
      else ([], m)
  | None => ([], m)
  end.


(** Feeding keypress events to the two listeners, [rl]'s first. Once
    the promise has resolved [handleKeypress] is removed, and once the
    process has exited no further key arrives. *)
Fixpoint run_keys (m : menu) (keys : list (option key)) : list ui_event * status :=
  match keys with
  | [] => ([], Waiting m)
  | k :: ks =>
      let '(ev0, m0) := rl_keypress m k in
      let '(ev, st) := handleKeypress m0 k in
      match st with
      | Waiting m' => let '(ev', st') := run_keys m' ks in ((ev0 ++ ev ++ ev')%list, st')
      | _ => ((ev0 ++ ev)%list, st)
      end
  end.

Definition initial_menu (l : list string) : menu :=
  {| avds := l; selected := repeat false (List.length l); currentIndex := 0; raw := true |}.

(** [selectAVDsBuiltIn()] on the inventory [l] and the keys the user
    presses: [displayMenu()], [setRawMode(true)], then the listeners.
    Stdin is already raw when it starts: the terminal [rl] of the
    constructor set raw mode. *)
Definition selectAVDsBuiltIn (l : list string) (keys : list (option key))
  : list ui_event * status :=
  let '(ev, st) := run_keys (initial_menu l) keys in
  ((DisplayMenu :: SetRawMode true :: ev)%list, st).

End BuiltIn.

(* ------------------------------------------------------------------ *)
(** * The inquirer selector, selectAVDsInquirer (lines 164-192) *)

Module Inquirer.

(** The [validate] callback of the checkbox question (lines 177-182):
    [None] stands for [true], [Some msg] for the message returned. *)
Definition validate (input : list string) : option string :=
  if Nat.eqb (List.length input) 0 then Some "Please select at least one AVD."
  else None.

(** inquirer's checkbox prompt: each submission is passed to
    [validate]; a rejected one shows the message and keeps the prompt
    open, and the prompt resolves with the first accepted one. *)
Fixpoint checkbox_prompt (v : list string -> option string)
         (submissions : list (list string)) : option (list string) :=
  match submissions with
  | [] => None
  | s :: rest =>
      match v s with
      | None => Some s
      | Some _ => checkbox_prompt v rest
      end
  end.

Definition selectAVDsInquirer (submissions : list (list string)) : option (list string) :=
  checkbox_prompt validate submissions.

End Inquirer.

(* ------------------------------------------------------------------ *)
(** * The launch-mode prompt, selectLaunchOptions (lines 194-235) *)

Inductive strategy : Type :=
| Parallel
| Delayed
| Sequential.

Inductive mode_event : Type :=
| AskLaunchMode
| ModeWarning (msg : string).

(** [selectLaunchOptions()] with [this.selectedAVDs = sel]; [inq_choice]
    is the value picked in inquirer's list (only its three values can be
    picked there) and [answer] the line typed at [rl.question]. *)
Definition selectLaunchOptions (sel : list string) (useInquirer : bool)
           (inq_choice : strategy) (answer : string) : list mode_event * strategy :=
  if Nat.eqb (List.length sel) 1 then ([], Parallel)
  else if useInquirer then ([AskLaunchMode], inq_choice)
  else
    let a := JsString.trim answer in
    if String.eqb a "1" then ([AskLaunchMode], Parallel)
    else if String.eqb a "2" then ([AskLaunchMode], Delayed)
    else if String.eqb a "3" then ([AskLaunchMode], Sequential)
    else ([AskLaunchMode; ModeWarning "Invalid choice. Using parallel launch."], Parallel).

(* ------------------------------------------------------------------ *)
(** * The launch scheduler (lines 254-317 and the switch of lines 366-376) *)

Module Launch.

(** What the console reports for one device: "Successfully launched"
    or "Failed to launch" with the error's message. *)
Inductive outcome : Type :=
| Success
| Failure (msg : string).

(** What [exec(command, cb)] does for one device (Node's child_process):
    - [ExecOk]: the child exits with status 0; the callback gets no error.
    - [ExecFailed msg]: the child exits non-zero; the callback gets an
      error with message [msg].
    - [ExecErrorEvent msg]: the child emits ['error'] (a spawn failing
      with EACCES, EAGAIN, EMFILE, ENFILE or ENOENT is reported this way
      on the next tick). The ['error'] listener [exec] installs runs
      first and calls the callback; the listener of line 269 runs next.
    - [ExecThrows msg]: [spawn] fails with any other error (ENOMEM,
      EPERM, ...), which [exec] throws synchronously, inside the
      [new Promise] executor of [launchAVD]. *)
Inductive exec_report : Type :=
| ExecOk
| ExecFailed (msg : string)
| ExecErrorEvent (msg : string)
| ExecThrows (msg : string).

(** The observable steps of a launch:
    - [Spawn d]: "Launching AVD: d" is printed and [exec] is called for it.
    - [Settle d o]: a line reporting the outcome [o] for [d].
    - [Wait ms]: a [setTimeout] wait of [ms] milliseconds.
    - [Prompt d] and [Ack d]: the "Press Enter" prompt for [d] is shown,
      and the user acknowledges it. *)
Inductive event : Type :=
| Spawn (avd : string)
| Settle (avd : string) (o : outcome)
| Wait (ms : nat)
| Prompt (avd : string)
| Ack (avd : string).

(** An async computation: the events it performs and how its promise
    settles; [bind] is [await], which rethrows a rejection. *)
Definition M (A : Type) : Type := list event * promise A.

Definition ret {A} (a : A) : M A := ([], Resolved a).

Definition bind {A B} (x : M A) (f : A -> M B) : M B :=
  match snd x with
  | Resolved a => let '(ev, r) := f a in ((fst x ++ ev)%list, r)
  | Rejected e => (fst x, Rejected e)
  end.

Section Scheduler.

(** The environment: what [exec(this.getEmulatorCommand(avd), cb)] does
    for each device. *)
Variable exec_env : string -> exec_report.

(** The outcome lines printed once [exec] for [avd] has been called. The
    callback prints one; on an ['error'] event the callback prints one
    (and resolves), then the listener of lines 269-272 prints another
    (its [resolve()] does nothing more). A synchronous throw prints
    none. *)
Definition reports (avd : string) : list event :=
  match exec_env avd with
  | ExecOk => [Settle avd Success]
  | ExecFailed msg => [Settle avd (Failure msg)]
  | ExecErrorEvent msg => [Settle avd (Failure msg); Settle avd (Failure msg)]
  | ExecThrows _ => []
  end.

(** [launchAVD] (lines 254-274): the executor prints the "Launching"
    line and calls [exec]. If [exec] throws, the executor throws and
    the promise is rejected with that error. Otherwise the promise is
    resolved once the callback has run. *)
Definition launchAVD (avd : string) : M unit :=
  match exec_env avd with
  | ExecThrows msg => ([Spawn avd], Rejected msg)
  | _ => ((Spawn avd :: reports avd)%list, Resolved tt)
  end.

(** The first synchronous [exec] error among [sel], in selection order. *)
Fixpoint first_throw (sel : list string) : option string :=
  match sel with
  | [] => None
  | d :: r =>
      match exec_env d with
      | ExecThrows msg => Some msg
      | _ => first_throw r
      end
  end.

(** [launchAVDsParallel] (lines 276-281). [map] runs every executor in
    selection order, so [exec] is called for every device even after one
    throws. The callbacks then run in the completion order [order]
    (indices into the selection) that the event loop picks.
    [Promise.all] rejects with the first rejected promise in selection
    order. A promise rejected by an executor throw is already rejected
    when [Promise.all] subscribes to it, so the rejection reaches the
    [await] through microtasks, before any [exec] callback or ['error']
    event can run. From there it goes to [run]'s [catch], which exits
    the process. So no outcome line is printed in that case. *)
Definition launchAVDsParallel (order : list nat) (sel : list string) : M unit :=
  match first_throw sel with
  | Some msg => (map Spawn sel, Rejected msg)
  | None => ((map Spawn sel ++ flat_map (fun i => reports (nth i sel "")) order)%list,
             Resolved tt)
  end.

(** [launchAVDsDelayed] (lines 283-294): [for (let i = 0; i < n; i++)],
    with the [setTimeout(resolve, 3000)] wait when [i < n - 1]. *)
Fixpoint delayed_loop (sel : list string) (i fuel : nat) : M unit :=
  match fuel with
  | O => ret tt
  | S f =>
      if Nat.ltb i (List.length sel) then
        bind (launchAVD (nth i sel "")) (fun _ =>
        bind (if Nat.ltb i (List.length sel - 1) then ([Wait 3000], Resolved tt)
              else ret tt) (fun _ =>
        delayed_loop sel (S i) f))
      else ret tt
  end.

Definition launchAVDsDelayed (sel : list string) : M unit :=
  delayed_loop sel 0 (List.length sel).

(** [await inquirer.prompt(...)] or [await new Promise(... rl.question
    ...)]: the prompt is shown and resolves when the user presses
    Enter. Both branches of line 300 behave the same way. *)
Definition acknowledge (avd : string) : M unit := ([Prompt avd; Ack avd], Resolved tt).

(** [launchAVDsSequential] (lines 296-317):
    [for (const avd of this.selectedAVDs)]. *)
Fixpoint launchAVDsSequential (sel : list string) : M unit :=
  match sel with
  | [] => ret tt
  | avd :: rest =>
      bind (acknowledge avd) (fun _ =>
      bind (launchAVD avd) (fun _ =>
      launchAVDsSequential rest))
  end.

(** The [switch (launchMode)] of [run()]. *)
Definition execute (s : strategy) (order : list nat) (sel : list string) : M unit :=
  match s with
  | Parallel => launchAVDsParallel order sel
  | Delayed => launchAVDsDelayed sel
  | Sequential => launchAVDsSequential sel
  end.

End Scheduler.

(** The devices an event trace calls [exec] for, in call order. *)
Definition spawned (tr : list event) : list string :=
  flat_map (fun e => match e with Spawn d => [d] | _ => [] end) tr.

(** The outcome lines of a trace, in the order they are printed. *)
Definition settled (tr : list event) : list (string * outcome) :=
  flat_map (fun e => match e with Settle d o => [(d, o)] | _ => [] end) tr.

Definition waits (tr : list event) : list nat :=
  flat_map (fun e => match e with Wait ms => [ms] | _ => [] end) tr.

(** [exec] for [d] returns normally (no synchronous throw). *)
Definition completes env (d : string) : bool :=
  match env d with ExecThrows _ => false | _ => true end.


(** The devices a serial loop gets to: those up to and including the
    first one whose [exec] throws. *)
Fixpoint upto_throw env (sel : list string) : list string :=
  match sel with
  | [] => []
  | d :: r => if completes env d then d :: upto_throw env r else [d]
  end.

(** How a batch's promise settles: rejected with the first synchronous
    [exec] error, fulfilled if there is none. *)
Definition batch_result env (sel : list string) : promise unit :=
  match first_throw env sel with
  | Some msg => Rejected msg
  | None => Resolved tt
  end.

(** The events [launchAVD] produces for one device. *)
Definition lev env d : list event := Spawn d :: reports env d.

(** The events of the delayed loop over [l]: the first device, then each
    following device preceded by its wait. *)
Definition delayed_tail env (l : list string) : list event :=
  match l with
  | [] => []
  | d :: r => (lev env d ++ flat_map (fun d' => Wait 3000 :: lev env d') r)%list
  end.

End Launch.

(* ------------------------------------------------------------------ *)
(** * The menu, displayMenu (lines 86-105) *)

Module Menu.
Import BuiltIn.

Definition esc : string := String (ascii_of_nat 27) EmptyString.

(** The item lines of [this.avds.forEach((avd, index) => ...)]:
    cursor, highlight, checkbox, name, reset. *)
Fixpoint menu_items (m : menu) (l : list string) (index : Z) : list string :=
  match l with
  | [] => []
  | avd :: rest =>
      let cursor := if Z.eqb index (currentIndex m) then "→ " else "  " in
      let checkbox := if get (selected m) index then "☑️ " else "☐ " in
      let highlight := if Z.eqb index (currentIndex m) then esc ++ "[36m" else esc ++ "[0m" in
      let reset := esc ++ "[0m" in
      (cursor ++ highlight ++ checkbox ++ avd ++ reset) :: menu_items m rest (index + 1)
  end.

(** [selected.filter(Boolean).length] *)
Definition selectedCount (m : menu) : nat := List.length (filter (fun b => b) (selected m)).

(** [displayMenu()]: the lines it logs after [console.clear()]; the line
    feeds embedded at the start or end of some messages are left out. *)
Definition displayMenu (m : menu) : list console_line :=
  ([Log "🤖 Android AVD Multi-Launcher"; Log "==============================";
    Log "📱 Select AVDs to launch:";
    Log "Use ↑↓ to navigate, Space to select/deselect, Enter to confirm"] ++
   map Log (menu_items m (avds m) 0) ++
   [Log ("📊 Selected: " ++ JsString.of_nat (selectedCount m) ++ " AVD(s)");
    Log "💡 Controls: ↑↓ Navigate | Space Select | Enter Confirm | q Quit"])%list.

End Menu.

(* ------------------------------------------------------------------ *)
(** * getEmulatorCommand (lines 237-252) *)

(** The double quote character, as a one-character string. *)
Definition dq : string := String (ascii_of_nat 34) EmptyString.

(** [emulator -avd "${avdName}"] *)
Definition baseCommand (avdName : string) : string :=
  "emulator -avd " ++ dq ++ avdName ++ dq.

(** [getEmulatorCommand(avdName)] on the platform [os.platform()]. *)
Definition getEmulatorCommand (platform avdName : string) : string :=
  let base := baseCommand avdName in
  if String.eqb platform "win32" then
    "powershell -Command " ++ dq ++ "Start-Process cmd -ArgumentList '/c','" ++ base ++
    "' -WindowStyle Minimized -PassThru | Out-Null" ++ dq
  else if String.eqb platform "darwin" then
    "osascript -e 'tell app " ++ dq ++ "Terminal" ++ dq ++ " to do script " ++ dq ++ base ++ dq ++ "'"
  else if String.eqb platform "linux" then
    "gnome-terminal --title=" ++ dq ++ "AVD: " ++ avdName ++ dq ++ " -- bash -c " ++ dq ++ base ++
    "; exec bash" ++ dq ++ " || xterm -title " ++ dq ++ "AVD: " ++ avdName ++ dq ++ " -e " ++ dq ++
    base ++ dq ++ " || konsole --title " ++ dq ++ "AVD: " ++ avdName ++ dq ++ " -e " ++ dq ++ base ++ dq
  else base.

(* ------------------------------------------------------------------ *)
(** * confirmLaunch (lines 319-337) *)

(** [c.toLowerCase()] on the ASCII range. *)
Definition ascii_lower (c : ascii) : ascii :=
  let n := nat_of_ascii c in
  if Nat.leb 65 n && Nat.leb n 90 then ascii_of_nat (n + 32) else c.

Fixpoint toLowerCase (s : string) : string :=
  match s with
  | EmptyString => EmptyString
  | String c r => String (ascii_lower c) (toLowerCase r)
  end.

(** [confirmLaunch()]: inquirer's confirm answer, or on the readline path
    [answer.toLowerCase().startsWith('y')]. *)
Definition confirmLaunch (useInquirer inq_answer : bool) (answer : string) : bool :=
  if useInquirer then inq_answer else String.prefix "y" (toLowerCase answer).

(* ------------------------------------------------------------------ *)
(** * The interactive pipeline, run (lines 339-411) *)

Module Pipeline.

(** What the user and the system supply to one pass of [run()]. *)
Record round : Type := {
  discovery : exec_result;                  (* emulator -list-avds *)
  keys : list (option BuiltIn.key);         (* raw-keyboard selector *)
  submissions : list (list string);         (* inquirer checkbox *)
  inq_mode : strategy;                      (* inquirer launch-mode list *)
  mode_answer : string;                     (* rl.question launch mode *)
  inq_confirm : bool;                       (* inquirer confirm *)
  confirm_answer : string;                  (* rl.question confirm *)
  spawn_env : string -> Launch.exec_report; (* what each exec does *)
  completion : list nat;                    (* parallel completion order *)
  launch_more : bool                        (* inquirer "launch more?" *)
}.

Inductive run_event : Type :=
| Discovered (lines : list console_line)
| Selected (sel : list string)
| ModeChosen (s : strategy)
| Launched (tr : list Launch.event)
| Say (msg : string).

(** How a run ends: it returns, the process exits, or it waits for
    input that never comes (a selector still open). *)
Inductive run_end : Type :=
| Finished
| ProcessExit (code : Z)
| Blocked.

(** [run()], one round of input per pass; a pass recurses on "launch
    more" only on the inquirer path. A rejected [getAVDList], or a
    launch whose promise rejects, goes to the [catch], which exits with
    status 1. *)
Fixpoint run (useInquirer : bool) (rounds : list round) : list run_event * run_end :=
  match rounds with
  | [] => ([], Blocked)
  | r :: rest =>
      let '(logs, res) := getAVDList (discovery r) in
      match res with
      | Rejected msg => ([Discovered logs; Say ("❌ An error occurred: " ++ msg)], ProcessExit 1)
      | Resolved avds =>
          let picked :=
            if useInquirer then
              match Inquirer.selectAVDsInquirer (submissions r) with
              | Some sel => inl sel
              | None => inr Blocked
              end
            else
              match snd (BuiltIn.selectAVDsBuiltIn avds (keys r)) with
              | BuiltIn.Confirmed sel _ => inl sel
              | BuiltIn.Waiting _ => inr Blocked
              | BuiltIn.Exited c _ => inr (ProcessExit c)
              end in
          match picked with
          | inr e => ([Discovered logs], e)
          | inl sel =>
              let mode := snd (selectLaunchOptions sel useInquirer (inq_mode r) (mode_answer r)) in
              let pre := [Discovered logs; Selected sel; ModeChosen mode] in
              if confirmLaunch useInquirer (inq_confirm r) (confirm_answer r) then
                let '(tr, res) := Launch.execute (spawn_env r) mode (completion r) sel in
                match res with
                | Rejected msg =>
                    ((pre ++ [Launched tr; Say ("❌ An error occurred: " ++ msg)])%list, ProcessExit 1)
                | Resolved _ =>
                    let done := (pre ++ [Launched tr; Say "🎉 All selected AVDs have been launched!"])%list in
                    if useInquirer && launch_more r then
                      let '(ev, e) := run useInquirer rest in ((done ++ ev)%list, e)
                    else (done, Finished)
                end
              else ((pre ++ [Say "❌ Launch cancelled by user."])%list, Finished)
          end
      end
  end.

(** The launch batches of a run, in order. *)
Definition launches (ev : list run_event) : list (list Launch.event) :=
  flat_map (fun e => match e with Launched tr => [tr] | _ => [] end) ev.

End Pipeline.


(* ------------------------------------------------------------------ *)
(** * Reading of the specification, for comparison *)

(** The parsing rule as the specification words it: split on line
    breaks, trim each line, drop the empty ones, keep the order. *)
Definition spec_parse_avds (out : string) : list string :=
  filter (fun l => negb (String.eqb l "")) (map JsString.trim (JsString.split_nl out)).

(** The output's only whitespace characters are line feeds. *)
Definition nl_only_ws (s : string) : Prop :=
  forall c, In c (list_ascii_of_string s) -> JsString.is_ws c = true -> c = JsString.newline.

(** The non-empty strings of a list, in order. *)
Definition nonempty (l : list string) : list string :=
  filter (fun x => negb (String.eqb x "")) l.

(** A line feed and a carriage return, as one-character strings. *)
Definition lf : string := String JsString.newline EmptyString.
Definition cr : string := String (ascii_of_nat 13) EmptyString.

(** The output of a discovery command listing [names], one per line. *)
Definition join_lines (names : list string) : string :=
  fold_right (fun n acc => n ++ lf ++ acc) "" names.



(** [subseq s l]: [s] is [l] with some elements left out, the others in
    their order. *)
Inductive subseq {A : Type} : list A -> list A -> Prop :=
| subseq_nil : subseq [] []
| subseq_take x s l : subseq s l -> subseq (x :: s) (x :: l)
| subseq_skip x s l : subseq s l -> subseq s (x :: l).

(* ================================================================== *)
(** * Facts *)

Module LaunchFacts.
Import Launch.

Lemma launchAVD_eq env d : launchAVD env d = (lev env d, batch_result env [d]).
Proof. unfold launchAVD, lev, batch_result, reports; simpl. destruct (env d); reflexivity. Qed.

Lemma skipn_nth_cons {A} (l : list A) i x :
  i < List.length l -> skipn i l = nth i l x :: skipn (S i) l.
Proof.
  revert i; induction l as [|a l IH]; intros i Hi; simpl in *; [lia|].
  destruct i; [reflexivity|]. simpl. apply IH. lia.
Qed.

Lemma wait_delayed_tail env l :
  l <> [] -> Wait 3000 :: delayed_tail env l = flat_map (fun d' => Wait 3000 :: lev env d') l.
Proof. destruct l as [|d r]; [contradiction|]. reflexivity. Qed.

Lemma upto_nonempty env l : l <> [] -> upto_throw env l <> [].
Proof. destruct l as [|d r]; [contradiction|]. simpl. destruct (completes env d); discriminate. Qed.

Lemma delayed_loop_eq env sel : forall fuel i,
  fuel = List.length sel - i ->
  delayed_loop env sel i fuel =
  (delayed_tail env (upto_throw env (skipn i sel)), batch_result env (skipn i sel)).
Proof.
  induction fuel as [|f IH]; intros i Hf; simpl.
  - rewrite skipn_all2 by lia. reflexivity.
  - destruct (Nat.ltb_spec i (List.length sel)) as [Hi|Hi]; [|lia].
    rewrite (skipn_nth_cons sel i "") by lia.
    rewrite (IH (S i)) by lia.
    assert (Hlen : List.length (skipn (S i) sel) = List.length sel - S i)
      by apply length_skipn.
    set (d := nth i sel "") in *. set (r := skipn (S i) sel) in *. clearbody d r.
    assert (Hw : Nat.ltb i (List.length sel - 1) = negb (match r with [] => true | _ => false end)).
    { destruct r; simpl in Hlen; [apply Nat.ltb_ge|apply Nat.ltb_lt]; lia. }
    rewrite Hw. clear Hw Hlen Hf Hi IH.
    unfold bind. rewrite launchAVD_eq. unfold lev, batch_result, completes, reports.
    cbn [fst snd upto_throw first_throw].
    assert (Hc : completes env d = match env d with ExecThrows _ => false | _ => true end)
      by reflexivity.
    destruct (env d) eqn:E; rewrite Hc; cbn [fst snd].
    all: destruct r as [|d' r']; cbn [negb fst snd ret upto_throw delayed_tail flat_map].
    all: unfold lev at 1, reports at 1; rewrite E; rewrite ?app_nil_r; try reflexivity.
    all: rewrite <- wait_delayed_tail by (cbn [upto_throw]; destruct (completes env d'); discriminate).
    all: reflexivity.
Qed.

Lemma delayed_result env sel :
  launchAVDsDelayed env sel = (delayed_tail env (upto_throw env sel), batch_result env sel).
Proof.
  unfold launchAVDsDelayed. rewrite (delayed_loop_eq env sel (List.length sel) 0) by lia.
  reflexivity.
Qed.

Lemma sequential_eq env sel :
  launchAVDsSequential env sel =
  (flat_map (fun d => Prompt d :: Ack d :: lev env d) (upto_throw env sel), batch_result env sel).
Proof.
  induction sel as [|d r IH]; [reflexivity|].
  cbn [launchAVDsSequential]. rewrite IH.
  assert (Hc : completes env d = match env d with ExecThrows _ => false | _ => true end)
    by reflexivity.
  unfold bind, acknowledge, launchAVD, batch_result; cbn [fst snd upto_throw first_throw].
  destruct (env d) eqn:E; rewrite Hc; cbn [fst snd flat_map app];
    unfold lev, reports; rewrite E; cbn [app]; rewrite ?app_nil_r; reflexivity.
Qed.



Lemma spawned_app a b : spawned (a ++ b) = (spawned a ++ spawned b)%list.
Proof. unfold spawned. apply flat_map_app. Qed.

Lemma settled_app a b : settled (a ++ b) = (settled a ++ settled b)%list.
Proof. unfold settled. apply flat_map_app. Qed.

Lemma spawned_map_Spawn l : spawned (map Spawn l) = l.
Proof. induction l as [|d r IH]; [reflexivity|]. cbn. f_equal. exact IH. Qed.


Lemma spawned_reports env d : spawned (reports env d) = [].
Proof. unfold reports. destruct (env d); reflexivity. Qed.

Lemma spawned_flat_reports env f (o : list nat) :
  spawned (flat_map (fun i => reports env (f i)) o) = [].
Proof.
  induction o as [|i o IH]; [reflexivity|]. cbn [flat_map].
  rewrite spawned_app, spawned_reports, IH. reflexivity.
Qed.


Lemma delayed_traces env l :
  spawned (delayed_tail env l) = l /\
  settled (delayed_tail env l) = flat_map (fun d => settled (reports env d)) l.
Proof.
  destruct l as [|d r]; [split; reflexivity|].
  unfold delayed_tail, lev. rewrite spawned_app, settled_app.
  assert (H : spawned (flat_map (fun d' => Wait 3000 :: Spawn d' :: reports env d') r) = r /\
              settled (flat_map (fun d' => Wait 3000 :: Spawn d' :: reports env d') r) =
              flat_map (fun d => settled (reports env d)) r).
  { induction r as [|d' r IH]; [split; reflexivity|].
    destruct IH as [IH1 IH2]. cbn [flat_map].
    change (Wait 3000 :: Spawn d' :: reports env d')
      with ([Wait 3000; Spawn d'] ++ reports env d')%list.
    rewrite !spawned_app, !settled_app, IH1, IH2, spawned_reports. split; reflexivity. }
  destruct H as [H1 H2].
  change (Spawn d :: reports env d) with ([Spawn d] ++ reports env d)%list.
  rewrite spawned_app, settled_app, H1, H2, spawned_reports. split; reflexivity.
Qed.

Lemma sequential_traces env l :
  spawned (flat_map (fun d => Prompt d :: Ack d :: lev env d) l) = l /\
  settled (flat_map (fun d => Prompt d :: Ack d :: lev env d) l) =
  flat_map (fun d => settled (reports env d)) l.
Proof.
  induction l as [|d r [IH1 IH2]]; [split; reflexivity|].
  cbn [flat_map]. rewrite spawned_app, settled_app, IH1, IH2. unfold lev.
  change (Prompt d :: Ack d :: Spawn d :: reports env d)
    with ([Prompt d; Ack d; Spawn d] ++ reports env d)%list.
  rewrite !spawned_app, !settled_app, spawned_reports. split; reflexivity.
Qed.


Lemma forallb_upto env sel :
  forallb (completes env) sel = true -> upto_throw env sel = sel.
Proof.
  induction sel as [|d r IH]; [reflexivity|]. simpl.
  destruct (completes env d); simpl; [|discriminate]. intros H. rewrite IH; auto.
Qed.

Lemma upto_prefix env sel : exists rest, sel = (upto_throw env sel ++ rest)%list.
Proof.
  induction sel as [|d r [rest IH]]; [exists []; reflexivity|]. simpl.
  destruct (completes env d).
  - exists rest. simpl. f_equal. exact IH.
  - exists r. reflexivity.
Qed.

Lemma upto_inner_completes env sel pre d1 d2 post :
  upto_throw env sel = (pre ++ d1 :: d2 :: post)%list -> completes env d1 = true.
Proof.
  revert sel; induction pre as [|x pre IH]; intros sel H.
  - destruct sel as [|d r]; simpl in H; [discriminate|].
    destruct (completes env d) eqn:E; injection H as -> H; [exact E|].
    discriminate.
  - destruct sel as [|d r]; simpl in H; [discriminate|].
    destruct (completes env d); injection H as _ H.
    + exact (IH r H).
    + destruct pre; discriminate.
Qed.

(** Whatever the strategy, the devices [exec] is called for are a prefix
    of the selection, the whole selection when no [exec] throws and
    under the parallel strategy; non-empty for a non-empty selection. *)
Lemma spawned_execute env s order sel :
  (exists rest, sel = (spawned (fst (execute env s order sel)) ++ rest)%list) /\
  (sel <> [] -> spawned (fst (execute env s order sel)) <> []) /\
  (forallb (completes env) sel = true -> spawned (fst (execute env s order sel)) = sel).
Proof.
  assert (Hp : spawned (fst (launchAVDsParallel env order sel)) = sel).
  { unfold launchAVDsParallel. destruct (first_throw env sel); cbn [fst].
    - apply spawned_map_Spawn.
    - rewrite spawned_app, spawned_map_Spawn, spawned_flat_reports. apply app_nil_r. }
  assert (Hu : spawned (fst (execute env s order sel)) = sel \/
               spawned (fst (execute env s order sel)) = upto_throw env sel).
  { destruct s; cbn [execute]; [left; exact Hp| |].
    - right. rewrite delayed_result. exact (proj1 (delayed_traces env _)).
    - right. rewrite sequential_eq. exact (proj1 (sequential_traces env _)). }
  split; [|split].
  - destruct Hu as [-> | ->]; [exists []; symmetry; apply app_nil_r|apply upto_prefix].
  - intros Hn. destruct Hu as [-> | ->]; [exact Hn|apply upto_nonempty; exact Hn].
  - intros Hc. destruct Hu as [-> | ->]; [reflexivity|apply forallb_upto; exact Hc].
Qed.




Lemma completes_reports env d : completes env d = true -> reports env d <> [].
Proof. unfold completes, reports. destruct (env d); discriminate. Qed.





Lemma subseq_nil_l {A} (l : list A) : subseq [] l.
Proof. induction l; constructor; assumption. Qed.

Lemma subseq_prefix {A} (a b : list A) : subseq a (a ++ b)%list.
Proof. induction a as [|x a IH]; [apply subseq_nil_l|constructor; exact IH]. Qed.

Lemma subseq_trans {A} (a b c : list A) : subseq a b -> subseq b c -> subseq a c.
Proof.
  intros H1 H2. revert a H1. induction H2 as [|x s l H IH|x s l H IH]; intros a H1.
  - exact H1.
  - inversion H1; subst; [apply subseq_take|apply subseq_skip]; apply IH; assumption.
  - apply subseq_skip. apply IH. exact H1.
Qed.

(** The devices a strategy spawns form a subsequence of the selection. *)
Lemma spawned_execute_subseq env s order sel :
  subseq (spawned (fst (execute env s order sel))) sel.
Proof.
  destruct (spawned_execute env s order sel) as [[rest Hr] _].
  rewrite Hr at 2. apply subseq_prefix.
Qed.

(** A synchronous [exec] error rejects the batch, whatever the strategy. *)
Lemma execute_rejects env s order sel msg :
  first_throw env sel = Some msg -> snd (execute env s order sel) = Rejected msg.
Proof.
  intros Hf. destruct s; cbn [execute].
  - unfold launchAVDsParallel. rewrite Hf. reflexivity.
  - rewrite delayed_result. unfold batch_result. rewrite Hf. reflexivity.
  - rewrite sequential_eq. unfold batch_result. rewrite Hf. reflexivity.
Qed.

Lemma all_throw_first env sel :
  sel <> [] -> (forall d, completes env d = false) -> exists msg, first_throw env sel = Some msg.
Proof.
  destruct sel as [|d r]; [contradiction|]. intros _ H. specialize (H d).
  unfold completes in H. simpl. destruct (env d); try discriminate. eauto.
Qed.

End LaunchFacts.

(* ================================================================== *)
(** * The launch scheduler *)

Import LaunchFacts.









(** C4: the sequential strategy shows, for each device in selection
    order, the "Press Enter" prompt, waits for the user's acknowledgment,
    then spawns and waits for the spawn to settle before the next prompt;
    the loop ends at a device whose [exec] throws. So whenever device
    i+1 is spawned, device i has printed its outcome, and between that
    outcome and the spawn of device i+1 lie exactly the prompt and
    acknowledgment of device i+1. *)
Theorem sequential_ack_before_spawn (exec_env : string -> Launch.exec_report) (sel : list string) :
  fst (Launch.launchAVDsSequential exec_env sel) =
    flat_map (fun d => Launch.Prompt d :: Launch.Ack d :: Launch.Spawn d :: Launch.reports exec_env d)
             (Launch.upto_throw exec_env sel) /\
  Launch.spawned (fst (Launch.launchAVDsSequential exec_env sel)) = Launch.upto_throw exec_env sel /\
  (forall pre d1 d2 post, Launch.upto_throw exec_env sel = (pre ++ d1 :: d2 :: post)%list ->
     Launch.reports exec_env d1 <> [] /\
     exists before after,
       fst (Launch.launchAVDsSequential exec_env sel) =
       (before ++ [Launch.Spawn d1] ++ Launch.reports exec_env d1 ++
        [Launch.Prompt d2; Launch.Ack d2; Launch.Spawn d2] ++ after)%list).
Proof.
  rewrite sequential_eq. cbn [fst]. split; [reflexivity|].
  split; [exact (proj1 (sequential_traces exec_env _))|].
  intros pre d1 d2 post Hu. split.
  - apply completes_reports. exact (upto_inner_completes exec_env sel pre d1 d2 post Hu).
  - rewrite Hu.
    exists (flat_map (fun d => Launch.Prompt d :: Launch.Ack d :: Launch.lev exec_env d) pre ++
            [Launch.Prompt d1; Launch.Ack d1])%list.
    exists (Launch.reports exec_env d2 ++
            flat_map (fun d => Launch.Prompt d :: Launch.Ack d :: Launch.lev exec_env d) post)%list.
    rewrite flat_map_app. cbn [flat_map]. unfold Launch.lev.
    rewrite <- !app_assoc. cbn [app]. reflexivity.
Qed.

(* ================================================================== *)
(** * Facts about the raw-keyboard selector *)

Module BuiltInFacts.
Import BuiltIn.

Lemma set_nat_length l i b : List.length (set_nat l i b) = List.length l.
Proof.
  revert i; induction l as [|x l IH]; intros [|i]; simpl; auto.
Qed.

Lemma set_length l i b : List.length (set l i b) = List.length l.
Proof. unfold set. destruct (0 <=? i)%Z; [apply set_nat_length|reflexivity]. Qed.

Lemma filter_checked_subseq l s i : subseq (filter_checked l s i) l.
Proof.
  revert i; induction l as [|a l IH]; intros i; simpl; [constructor|].
  destruct (get s i); constructor; apply IH.
Qed.

(** One keypress: what each kind of step keeps, and that only the
    confirm step calls [setRawMode(false)]. *)
Lemma handle_inv m k ev st :
  handleKeypress m k = (ev, st) ->
  match st with
  | Waiting m' =>
      avds m' = avds m /\ raw m' = raw m /\
      List.length (selected m') = List.length (selected m) /\ ~ In (SetRawMode false) ev
  | Confirmed sel m' =>
      avds m' = avds m /\ selected m' = selected m /\ raw m' = false /\
      sel = checked_avds m /\ sel <> [] /\ ev = [SetRawMode false]
  | Exited c m' =>
      c = 0%Z /\ m' = m /\ ev = [Say "👋 Goodbye!"; ProcessExit 0] /\
      exists kk, k = Some kk /\ (name kk = "q" \/ (name kk = "c" /\ ctrl kk = true))
  end.
Proof.
  intros H. unfold handleKeypress in H.
  destruct k as [k|]; [|injection H as <- <-; simpl; auto].
  repeat match type of H with
         | context [if ?b then _ else _] => let E := fresh "E" in destruct b eqn:E
         end;
    injection H as <- <-; cbn [avds raw selected with_index with_selected with_raw];
    repeat split; auto using set_length;
    try (simpl; intuition congruence).
  - intros Hn. rewrite Hn in *. discriminate.
  - exists k. split; [reflexivity|]. left. apply String.eqb_eq. assumption.
  - exists k. split; [reflexivity|]. right. split; [apply String.eqb_eq|]; assumption.
Qed.

(** [rl]'s listener: Ctrl-C leaves raw mode, any other key does nothing. *)
Lemma rl_cases m k ev0 m0 :
  rl_keypress m k = (ev0, m0) ->
  (ev0 = [] /\ m0 = m /\ forall kk, k = Some kk -> ~ (name kk = "c" /\ ctrl kk = true)) \/
  (exists kk, k = Some kk /\ name kk = "c" /\ ctrl kk = true /\
              ev0 = [SetRawMode false] /\ m0 = with_raw m false).
Proof.
  unfold rl_keypress. destruct k as [kk|].
  - destruct (String.eqb_spec (name kk) "c") as [Hc|Hc]; destruct (ctrl kk) eqn:Ek; cbn [andb];
      intros H; injection H as <- <-.
    + right. exists kk. auto.
    + left. repeat split; auto. intros kk' Hk [_ Hx]. injection Hk as <-. congruence.
    + left. repeat split; auto. intros kk' Hk [Hx _]. injection Hk as <-. contradiction.
    + left. repeat split; auto. intros kk' Hk [Hx _]. injection Hk as <-. contradiction.
  - intros H. injection H as <- <-. left. repeat split; auto. discriminate.
Qed.

Lemma ctrl_c_exits m kk :
  name kk = "c" -> ctrl kk = true ->
  handleKeypress m (Some kk) = ([Say "👋 Goodbye!"; ProcessExit 0], Exited 0 m).
Proof. intros Hn Hc. unfold handleKeypress. rewrite Hn, Hc. reflexivity. Qed.

(** One key through both listeners. *)
Lemma step_inv m k ev0 m0 ev st :
  rl_keypress m k = (ev0, m0) -> handleKeypress m0 k = (ev, st) ->
  match st with
  | Waiting m' =>
      ev0 = [] /\ avds m' = avds m /\ raw m' = raw m /\
      List.length (selected m') = List.length (selected m) /\ ~ In (SetRawMode false) ev
  | Confirmed sel m' =>
      ev0 = [] /\ avds m' = avds m /\ selected m' = selected m /\ raw m' = false /\
      sel = checked_avds m /\ sel <> [] /\ ev = [SetRawMode false]
  | Exited c m' =>
      c = 0%Z /\ avds m' = avds m /\
      ((raw m' = false /\ (ev0 ++ ev)%list = [SetRawMode false; Say "👋 Goodbye!"; ProcessExit 0] /\
        exists kk, k = Some kk /\ name kk = "c" /\ ctrl kk = true) \/
       (raw m' = raw m /\ (ev0 ++ ev)%list = [Say "👋 Goodbye!"; ProcessExit 0] /\
        exists kk, k = Some kk /\ name kk = "q"))
  end.
Proof.
  intros Hr Hh. destruct (rl_cases m k ev0 m0 Hr) as [[-> [-> Hk]] | [kk [-> [Hn [Hc [-> ->]]]]]].
  - pose proof (handle_inv m k ev st Hh) as H.
    destruct st as [m'|sel m'|c m']; [tauto|tauto|].
    destruct H as [-> [-> [-> [kk [-> [Hq|Hcc]]]]]].
    + split; [reflexivity|]. split; [reflexivity|]. right. split; [reflexivity|].
      split; [reflexivity|]. exists kk. auto.
    + exfalso. exact (Hk kk eq_refl Hcc).
  - rewrite (ctrl_c_exits _ kk Hn Hc) in Hh. injection Hh as <- <-.
    split; [reflexivity|]. split; [reflexivity|]. left. split; [reflexivity|].
    split; [reflexivity|]. exists kk. auto.
Qed.

(** A run of keypresses from the menu [m]. *)
Lemma run_inv m keys ev st :
  run_keys m keys = (ev, st) ->
  match st with
  | Waiting m' =>
      avds m' = avds m /\ raw m' = raw m /\
      List.length (selected m') = List.length (selected m) /\ ~ In (SetRawMode false) ev
  | Confirmed sel m' =>
      avds m' = avds m /\ raw m' = false /\
      List.length (selected m') = List.length (selected m) /\
      sel = checked_avds m' /\ sel <> [] /\
      exists pre, ev = (pre ++ [SetRawMode false])%list /\ ~ In (SetRawMode false) pre
  | Exited c m' =>
      c = 0%Z /\ avds m' = avds m /\
      exists pre, ~ In (SetRawMode false) pre /\
      ((raw m' = false /\ ev = (pre ++ [SetRawMode false; Say "👋 Goodbye!"; ProcessExit 0])%list /\
        exists ks1 kk ks2, keys = (ks1 ++ Some kk :: ks2)%list /\ name kk = "c" /\ ctrl kk = true) \/
       (raw m' = raw m /\ ev = (pre ++ [Say "👋 Goodbye!"; ProcessExit 0])%list /\
        exists ks1 kk ks2, keys = (ks1 ++ Some kk :: ks2)%list /\ name kk = "q"))
  end.
Proof.
  revert m ev st; induction keys as [|k ks IH]; intros m ev st H; simpl in H.
  - injection H as <- <-. simpl. auto.
  - destruct (rl_keypress m k) as [ev0 m0] eqn:E0.
    destruct (handleKeypress m0 k) as [ev1 st1] eqn:E1.
    pose proof (step_inv m k ev0 m0 ev1 st1 E0 E1) as Hs.
    destruct st1 as [m1|sel1 m1|c1 m1].
    + destruct (run_keys m1 ks) as [ev2 st2] eqn:E2.
      injection H as <- <-.
      specialize (IH m1 ev2 st2 E2).
      destruct Hs as [-> [Ha [Hr [Hl Hn]]]]. cbn [app].
      destruct st2 as [m2|sel2 m2|c2 m2].
      * destruct IH as [Ha' [Hr' [Hl' Hn']]].
        repeat split; try congruence. rewrite in_app_iff. tauto.
      * destruct IH as [Ha' [Hr' [Hl' [Hs' [Hne [pre [Hev Hpre]]]]]]].
        repeat split; try congruence.
        exists (ev1 ++ pre)%list. rewrite Hev, app_assoc. split; [reflexivity|].
        rewrite in_app_iff. tauto.
      * destruct IH as [Hc [Ha' [pre [Hpre IH]]]].
        split; [exact Hc|]. split; [congruence|].
        exists (ev1 ++ pre)%list. split; [rewrite in_app_iff; tauto|].
        destruct IH as [[Hr' [Hev [ks1 [kk [ks2 [Hk Hkk]]]]]] | [Hr' [Hev [ks1 [kk [ks2 [Hk Hkk]]]]]]].
        -- left. split; [exact Hr'|]. split; [rewrite Hev, app_assoc; reflexivity|].
           exists (k :: ks1), kk, ks2. rewrite Hk. auto.
        -- right. split; [congruence|]. split; [rewrite Hev, app_assoc; reflexivity|].
           exists (k :: ks1), kk, ks2. rewrite Hk. auto.
    + injection H as <- <-.
      destruct Hs as [-> [Ha [Hsel [Hr [Hs [Hne Hev]]]]]].
      repeat split; try congruence.
      * unfold checked_avds in *. rewrite Ha, Hsel. exact Hs.
      * exists []. rewrite Hev. split; [reflexivity|]. simpl. tauto.
    + injection H as <- <-.
      destruct Hs as [Hc [Ha Hx]]. split; [exact Hc|]. split; [exact Ha|].
      exists []. split; [simpl; tauto|].
      destruct Hx as [[Hr [Hev [kk [-> Hkk]]]] | [Hr [Hev [kk [-> Hkk]]]]].
      * left. split; [exact Hr|]. split; [exact Hev|]. exists [], kk, ks. auto.
      * right. split; [exact Hr|]. split; [exact Hev|]. exists [], kk, ks. auto.
Qed.

End BuiltInFacts.

(* ================================================================== *)
(** * The selectors *)

(** C5: neither selector hands an empty selection to its caller. The
    raw-keyboard selector resolves only with a non-empty list, and Enter
    with nothing checked shows the message and redraws the menu, leaving
    its state as it was; inquirer's checkbox resolves only with a
    submission its [validate] callback accepts, which rejects []. *)
Theorem selector_never_empty :
  (forall (l : list string) (keys : list (option BuiltIn.key)),
     match snd (BuiltIn.selectAVDsBuiltIn l keys) with
     | BuiltIn.Confirmed sel _ => sel <> []
     | _ => True
     end) /\
  (forall (m : BuiltIn.menu) (c : bool),
     BuiltIn.checked_avds m = [] ->
     BuiltIn.handleKeypress m (Some {| BuiltIn.name := "return"; BuiltIn.ctrl := c |}) =
     ([BuiltIn.Say "❌ Please select at least one AVD."; BuiltIn.DisplayMenu], BuiltIn.Waiting m)) /\
  (forall (submissions : list (list string)) (sel : list string),
     Inquirer.selectAVDsInquirer submissions = Some sel -> sel <> []).
Proof.
  split; [|split].
  - intros l keys. unfold BuiltIn.selectAVDsBuiltIn.
    destruct (BuiltIn.run_keys (BuiltIn.initial_menu l) keys) as [ev st] eqn:E.
    pose proof (BuiltInFacts.run_inv _ _ _ _ E) as H.
    destruct st; simpl; tauto.
  - intros m c Hm. unfold BuiltIn.handleKeypress. simpl. rewrite Hm. reflexivity.
  - unfold Inquirer.selectAVDsInquirer.
    induction submissions as [|s rest IH]; intros sel H; simpl in H; [discriminate|].
    destruct (Inquirer.validate s) eqn:E.
    + exact (IH sel H).
    + injection H as <-. intros ->. discriminate.
Qed.




(** C10: the selection the raw-keyboard selector resolves with is the
    list of inventory entries whose checkbox is checked at confirm time,
    in inventory order: an order-preserving subsequence of the
    inventory, over a checkbox array as long as the inventory. The
    delayed and sequential strategies then spawn in inventory order. *)
Theorem builtin_selection_subsequence (l : list string) (keys : list (option BuiltIn.key)) :
  match snd (BuiltIn.selectAVDsBuiltIn l keys) with
  | BuiltIn.Confirmed sel m =>
      BuiltIn.avds m = l /\ List.length (BuiltIn.selected m) = List.length l /\
      sel = BuiltIn.filter_checked l (BuiltIn.selected m) 0 /\ subseq sel l /\
      (forall exec_env,
         subseq (Launch.spawned (fst (Launch.launchAVDsDelayed exec_env sel))) l /\
         subseq (Launch.spawned (fst (Launch.launchAVDsSequential exec_env sel))) l)
  | _ => True
  end.
Proof.
  unfold BuiltIn.selectAVDsBuiltIn.
  destruct (BuiltIn.run_keys (BuiltIn.initial_menu l) keys) as [ev st] eqn:E.
  pose proof (BuiltInFacts.run_inv _ _ _ _ E) as H. simpl in H.
  destruct st as [m|sel m|c m]; cbn [snd]; auto.
  destruct H as [Ha [_ [Hl [Hs _]]]].
  rewrite repeat_length in Hl.
  unfold BuiltIn.checked_avds in Hs. rewrite Ha in Hs.
  assert (Hsub : subseq sel l) by (rewrite Hs; apply BuiltInFacts.filter_checked_subseq).
  split; [exact Ha|]. split; [exact Hl|]. split; [exact Hs|]. split; [exact Hsub|].
  intros exec_env. split.
  - apply (subseq_trans _ sel); [|exact Hsub].
    exact (spawned_execute_subseq exec_env Delayed [] sel).
  - apply (subseq_trans _ sel); [|exact Hsub].
    exact (spawned_execute_subseq exec_env Sequential [] sel).
Qed.

(* ================================================================== *)
(** * Discovery and the launch-mode prompt *)


(** C8: with a single selected AVD the launch mode is [parallel] and
    nothing is asked; with two or more in the minimal UI, an answer that
    is not 1, 2 or 3 once trimmed yields [parallel] with the warning,
    never an error. *)
Theorem launch_mode_defaults
        (useInquirer : bool) (inq_choice : strategy) (answer : string) :
  (forall sel, List.length sel = 1 ->
     selectLaunchOptions sel useInquirer inq_choice answer = ([], Parallel)) /\
  (forall sel, 2 <= List.length sel ->
     ~ In (JsString.trim answer) ["1"; "2"; "3"] ->
     selectLaunchOptions sel false inq_choice answer =
     ([AskLaunchMode; ModeWarning "Invalid choice. Using parallel launch."], Parallel)).
Proof.
  split.
  - intros sel H. unfold selectLaunchOptions. rewrite H. reflexivity.
  - intros sel H Hn. unfold selectLaunchOptions.
    destruct (Nat.eqb_spec (List.length sel) 1) as [H1|_]; [lia|].
    destruct (String.eqb_spec (JsString.trim answer) "1"); [exfalso; apply Hn; rewrite e; simpl; tauto|].
    destruct (String.eqb_spec (JsString.trim answer) "2"); [exfalso; apply Hn; rewrite e; simpl; tauto|].
    destruct (String.eqb_spec (JsString.trim answer) "3"); [exfalso; apply Hn; rewrite e; simpl; tauto|].
    reflexivity.
Qed.

(* ================================================================== *)
(** * Facts about the parsing of the discovery output *)

Module ParseFacts.
Import JsString.

Lemma string_of_list_app (a b : list ascii) :
  string_of_list_ascii (a ++ b) = (string_of_list_ascii a ++ string_of_list_ascii b)%string.
Proof. induction a as [|c a IH]; simpl; [reflexivity|]. rewrite IH. reflexivity. Qed.

Lemma append_nil_r s : (s ++ EmptyString)%string = s.
Proof. induction s as [|c s IH]; simpl; [reflexivity|]. rewrite IH. reflexivity. Qed.

Lemma append_assoc a b c : (a ++ (b ++ c))%string = ((a ++ b) ++ c)%string.
Proof. induction a as [|x a IH]; simpl; [reflexivity|]. rewrite IH. reflexivity. Qed.

Lemma ltrim_suffix l : exists p, l = (p ++ ltrim l)%list /\
                                forall c, In c p -> is_ws c = true.
Proof.
  induction l as [|c r [p [Hp Hw]]]; simpl.
  - exists []. split; [reflexivity|]. simpl; tauto.
  - destruct (is_ws c) eqn:E.
    + exists (c :: p). split; [simpl; congruence|]. intros x [->|Hx]; auto.
    + exists []. split; [reflexivity|]. simpl; tauto.
Qed.

Lemma ltrim_incl l c : In c (ltrim l) -> In c l.
Proof.
  destruct (ltrim_suffix l) as [p [Hp _]]. intros H. rewrite Hp. apply in_or_app. auto.
Qed.

Lemma ltrim_no_ws l : (forall c, In c l -> is_ws c = false) -> ltrim l = l.
Proof. destruct l as [|c r]; simpl; [reflexivity|]. intros H. rewrite H; auto. Qed.

Lemma trim_no_ws s :
  (forall c, In c (list_ascii_of_string s) -> is_ws c = false) -> trim s = s.
Proof.
  intros H. unfold trim. rewrite (ltrim_no_ws _ H).
  rewrite ltrim_no_ws.
  - rewrite rev_involutive. apply string_of_list_ascii_of_string.
  - intros c Hc. apply H. apply in_rev. exact Hc.
Qed.

Lemma trim_incl s c : In c (list_ascii_of_string (trim s)) -> In c (list_ascii_of_string s).
Proof.
  unfold trim. rewrite list_ascii_of_string_of_list_ascii.
  intros H. apply in_rev in H. apply ltrim_incl in H. apply in_rev in H.
  apply ltrim_incl in H. exact H.
Qed.

Lemma split_nl_aux_lines s cur (Q : ascii -> Prop) :
  (forall c, In c (list_ascii_of_string cur) -> Q c) ->
  (forall c, In c (list_ascii_of_string s) -> c <> newline -> Q c) ->
  forall l, In l (split_nl_aux s cur) -> forall c, In c (list_ascii_of_string l) -> Q c.
Proof.
  revert cur; induction s as [|x r IH]; intros cur Hcur Hs l Hl; simpl in Hl.
  - destruct Hl as [<-|[]]. exact Hcur.
  - destruct (Ascii.eqb_spec x newline) as [Ex|Ex].
    + destruct Hl as [<-|Hl]; [exact Hcur|].
      apply (IH EmptyString); auto.
      * simpl; tauto.
      * intros c Hc. apply Hs. simpl; auto.
    + apply (IH (cur ++ String x EmptyString)%string); auto.
      * intros c Hc. rewrite <- (string_of_list_ascii_of_string cur) in Hc.
        change (String x EmptyString) with (string_of_list_ascii [x]) in Hc.
        rewrite <- string_of_list_app, list_ascii_of_string_of_list_ascii in Hc.
        apply in_app_or in Hc. destruct Hc as [Hc|[<-|[]]]; [|apply Hs; simpl; auto].
        apply Hcur. exact Hc.
      * intros c Hc. apply Hs. simpl; auto.
Qed.

Lemma lines_no_ws s :
  nl_only_ws s ->
  forall l, In l (split_nl s) -> forall c, In c (list_ascii_of_string l) -> is_ws c = false.
Proof.
  intros H. apply split_nl_aux_lines.
  - simpl; tauto.
  - intros c Hc Hn. destruct (is_ws c) eqn:E; [|reflexivity].
    exfalso. apply Hn. apply H; assumption.
Qed.

Lemma split_nl_aux_snoc s cur :
  split_nl_aux (s ++ String newline EmptyString) cur = (split_nl_aux s cur ++ [EmptyString])%list.
Proof.
  revert cur; induction s as [|x r IH]; intros cur; simpl.
  - reflexivity.
  - destruct (Ascii.eqb x newline); rewrite IH; reflexivity.
Qed.

Lemma nonempty_app a b : nonempty (a ++ b) = (nonempty a ++ nonempty b)%list.
Proof. apply filter_app. Qed.

Lemma nonempty_nl_around k m t :
  nonempty (split_nl (string_of_list_ascii (repeat newline k) ++ t ++
                      string_of_list_ascii (repeat newline m))) = nonempty (split_nl t).
Proof.
  induction k as [|k IH].
  - induction m as [|m IHm].
    + cbn [repeat string_of_list_ascii append]. rewrite append_nil_r. reflexivity.
    + change (repeat newline (S m)) with (newline :: repeat newline m).
      rewrite repeat_cons, string_of_list_app, (append_assoc t),
        (append_assoc (string_of_list_ascii (repeat newline 0))).
      unfold split_nl. simpl (string_of_list_ascii [newline]).
      rewrite split_nl_aux_snoc, nonempty_app. unfold split_nl in IHm. rewrite IHm.
      simpl. rewrite app_nil_r. reflexivity.
  - unfold split_nl in *. simpl. exact IH.
Qed.

Lemma all_newline_repeat p :
  (forall c, In c p -> c = newline) -> p = repeat newline (List.length p).
Proof.
  intros H. apply Forall_eq_repeat. apply Forall_forall. intros c Hc. symmetry. auto.
Qed.

(** Under [nl_only_ws], trimming removes only line feeds, from both
    ends. *)
Lemma trim_decomp s :
  nl_only_ws s ->
  exists a b, s = (string_of_list_ascii (repeat newline a) ++ trim s ++
                   string_of_list_ascii (repeat newline b))%string.
Proof.
  intros H. unfold trim.
  set (L := list_ascii_of_string s).
  destruct (ltrim_suffix L) as [p [Hp Hpw]].
  destruct (ltrim_suffix (rev (ltrim L))) as [q [Hq Hqw]].
  assert (Hpn : forall c, In c p -> c = newline).
  { intros c Hc. apply H; [|auto]. fold L. rewrite Hp. apply in_or_app. auto. }
  assert (Hqn : forall c, In c q -> c = newline).
  { intros c Hc. apply H; [|auto]. fold L. rewrite Hp. apply in_or_app. right.
    apply in_rev. rewrite Hq. apply in_or_app. auto. }
  exists (List.length p), (List.length q).
  rewrite <- (all_newline_repeat p Hpn).
  rewrite <- (rev_repeat (List.length q) newline), <- (all_newline_repeat q Hqn).
  rewrite <- !string_of_list_app.
  rewrite <- (string_of_list_ascii_of_string s). fold L. f_equal.
  rewrite Hp at 1. f_equal.
  rewrite <- (rev_involutive (ltrim L)) at 1. rewrite Hq at 1. rewrite rev_app_distr. reflexivity.
Qed.

(** For outputs whose only whitespace is line feeds, the code's parse
    and the rule the specification states agree. *)
Lemma parse_agrees s : nl_only_ws s -> parse_avds s = spec_parse_avds s.
Proof.
  intros H. unfold parse_avds, spec_parse_avds.
  assert (Ht : nl_only_ws (trim s)).
  { intros c Hc Hw. apply H; [apply trim_incl|]; assumption. }
  rewrite (filter_ext_in _ (fun x => negb (String.eqb x "")) _).
  2:{ intros l Hl. rewrite (trim_no_ws l); [reflexivity|].
      exact (lines_no_ws _ Ht l Hl). }
  rewrite (map_ext_in trim (fun x => x)).
  2:{ intros l Hl. apply trim_no_ws. exact (lines_no_ws _ H l Hl). }
  rewrite map_id. fold (nonempty (split_nl (trim s))). fold (nonempty (split_nl s)).
  destruct (trim_decomp s H) as [a [b E]].
  set (t := trim s) in *. clearbody t. rewrite E. symmetry. apply nonempty_nl_around.
Qed.

End ParseFacts.

(* ================================================================== *)
(** * Parsing of the discovery output *)

Lemma filter_subseq {A} (f : A -> bool) (l : list A) : subseq (filter f l) l.
Proof.
  induction l as [|a l IH]; simpl; [constructor|].
  destruct (f a); constructor; exact IH.
Qed.

(** The claim of C6 as worded: the parse trims each line. With CRLF line
    ends, "Pixel_5\r\nPixel_7\r\n", the code keeps the carriage return
    of the first line, since only the whole output is trimmed, while the
    trim-each-line rule drops it. *)
Lemma parse_avds_crlf_counterexample :
  parse_avds ("Pixel_5" ++ cr ++ lf ++ "Pixel_7" ++ cr ++ lf) = ["Pixel_5" ++ cr; "Pixel_7"] /\
  spec_parse_avds ("Pixel_5" ++ cr ++ lf ++ "Pixel_7" ++ cr ++ lf) = ["Pixel_5"; "Pixel_7"] /\
  parse_avds ("Pixel_5" ++ cr ++ lf ++ "Pixel_7" ++ cr ++ lf)
    <> spec_parse_avds ("Pixel_5" ++ cr ++ lf ++ "Pixel_7" ++ cr ++ lf).
Proof.
  split; [reflexivity|]. split; [reflexivity|].
  vm_compute. intros H. discriminate H.
Qed.

(** C6 (as the code has it): the output is trimmed once as a whole,
    split on line feeds, and the lines that are empty or whitespace-only
    are dropped; the remaining lines are kept as they are and in their
    order: every line that is not blank is kept, untrimmed, so the
    spaces around a name inside the output, or the carriage return of a
    CRLF line end, stay in it. When line feeds are the output's only
    whitespace this is the trim-each-line rule, and
    "Pixel_5\n\nPixel_7\n" gives ["Pixel_5"; "Pixel_7"]. *)
Theorem parse_avds_lines (out : string) :
  (forall avd, In avd (parse_avds out) -> JsString.trim avd <> "") /\
  (forall line, In line (JsString.split_nl (JsString.trim out)) ->
     JsString.trim line <> "" -> In line (parse_avds out)) /\
  subseq (parse_avds out) (JsString.split_nl (JsString.trim out)) /\
  (nl_only_ws out -> parse_avds out = spec_parse_avds out) /\
  parse_avds ("Pixel_5" ++ lf ++ lf ++ "Pixel_7" ++ lf) = ["Pixel_5"; "Pixel_7"] /\
  parse_avds (" Pixel_5 " ++ lf ++ " Pixel_7") = ["Pixel_5 "; " Pixel_7"].
Proof.
  split; [|split; [|split; [|split; [|split]]]].
  - intros avd H. unfold parse_avds in H. apply filter_In in H.
    destruct H as [_ H]. intros E. rewrite E in H. discriminate.
  - intros line Hin Ht. unfold parse_avds. apply filter_In. split; [exact Hin|].
    destruct (String.eqb_spec (JsString.trim line) ""); [contradiction|reflexivity].
  - apply filter_subseq.
  - apply ParseFacts.parse_agrees.
  - reflexivity.
  - reflexivity.
Qed.

(* ================================================================== *)
(** * Runs on concrete inputs *)

Example builtin_select_first_and_third :
  snd (BuiltIn.selectAVDsBuiltIn ["A"; "B"; "C"]
         [Some {| BuiltIn.name := "space"; BuiltIn.ctrl := false |};
          Some {| BuiltIn.name := "up"; BuiltIn.ctrl := false |};
          Some {| BuiltIn.name := "space"; BuiltIn.ctrl := false |};
          Some {| BuiltIn.name := "return"; BuiltIn.ctrl := false |}])
  = BuiltIn.Confirmed ["A"; "C"]
      {| BuiltIn.avds := ["A"; "B"; "C"]; BuiltIn.selected := [true; false; true];
         BuiltIn.currentIndex := 2; BuiltIn.raw := false |}.
Proof. reflexivity. Qed.

Example builtin_empty_confirm_keeps_waiting :
  snd (BuiltIn.selectAVDsBuiltIn ["A"]
         [Some {| BuiltIn.name := "return"; BuiltIn.ctrl := false |}])
  = BuiltIn.Waiting (BuiltIn.initial_menu ["A"]).
Proof. reflexivity. Qed.

Example delayed_three_devices :
  Launch.waits (fst (Launch.launchAVDsDelayed (fun _ => Launch.ExecOk) ["A"; "B"; "C"])) = [3000; 3000].
Proof. reflexivity. Qed.

Example parallel_settles_in_completion_order :
  Launch.settled (fst (Launch.launchAVDsParallel (fun d => if String.eqb d "A" then Launch.ExecFailed "e"
                                                          else Launch.ExecOk)
                                                 [1; 0] ["A"; "B"]))
  = [("B", Launch.Success); ("A", Launch.Failure "e")].
Proof. reflexivity. Qed.

Example listing_failure_exit_status :
  snd (printAVDs_listing {| exit_code := 127; stdout := ""; exec_message := "not found" |}) = 1%Z.
Proof. reflexivity. Qed.

(* ================================================================== *)
(** * More facts about the raw-keyboard selector and its menu *)

Module MenuFacts.
Import BuiltIn.

Lemma handle_bounds m k ev st :
  handleKeypress m k = (ev, st) ->
  (0 <= currentIndex m < Z.of_nat (List.length (avds m)))%Z ->
  match st with
  | Waiting m' | Confirmed _ m' | Exited _ m' =>
      avds m' = avds m /\ (0 <= currentIndex m' < Z.of_nat (List.length (avds m)))%Z
  end.
Proof.
  intros H Hb. unfold handleKeypress in H.
  destruct k as [k|]; [|injection H as <- <-; auto].
  repeat match type of H with
         | context [if ?b then _ else _] => let E := fresh "E" in destruct b eqn:E
         end;
    injection H as <- <-; cbn [avds currentIndex with_index with_selected with_raw];
    split; auto; try lia.
  all: repeat match goal with
              | E : (_ >? _)%Z = _ |- _ => rewrite Z.gtb_ltb in E
              | E : (_ <? _)%Z = _ |- _ => first [apply Z.ltb_lt in E | apply Z.ltb_ge in E]
              end; lia.
Qed.

Lemma rl_keeps m k ev0 m0 :
  rl_keypress m k = (ev0, m0) ->
  avds m0 = avds m /\ currentIndex m0 = currentIndex m /\ selected m0 = selected m.
Proof.
  intros H. destruct (BuiltInFacts.rl_cases m k ev0 m0 H) as [[_ [-> _]] | [_ [_ [_ [_ [_ ->]]]]]];
    auto.
Qed.

Lemma run_bounds m keys ev st :
  run_keys m keys = (ev, st) ->
  (0 <= currentIndex m < Z.of_nat (List.length (avds m)))%Z ->
  match st with
  | Waiting m' | Confirmed _ m' | Exited _ m' =>
      avds m' = avds m /\ (0 <= currentIndex m' < Z.of_nat (List.length (avds m)))%Z
  end.
Proof.
  revert m ev st; induction keys as [|k ks IH]; intros m ev st H Hb; simpl in H.
  - injection H as <- <-. auto.
  - destruct (rl_keypress m k) as [ev0 m0] eqn:E0.
    destruct (rl_keeps m k ev0 m0 E0) as [Ha0 [Hc0 _]].
    rewrite <- Ha0, <- Hc0 in Hb.
    destruct (handleKeypress m0 k) as [ev1 st1] eqn:E1.
    pose proof (handle_bounds m0 k ev1 st1 E1 Hb) as Hs. rewrite Ha0 in Hs.
    destruct st1 as [m1|sel1 m1|c1 m1].
    + destruct (run_keys m1 ks) as [ev2 st2] eqn:E2. injection H as <- <-.
      destruct Hs as [Ha Hb1]. rewrite <- Ha in Hb1.
      specialize (IH m1 ev2 st2 E2 Hb1). rewrite Ha in IH.
      destruct st2; destruct IH as [Ha' Hb']; split; congruence.
    + injection H as <- <-. exact Hs.
    + injection H as <- <-. exact Hs.
Qed.

Lemma set_nat_nth l i b j :
  i < List.length l -> nth j (set_nat l i b) false = if Nat.eqb j i then b else nth j l false.
Proof.
  revert i j; induction l as [|x l IH]; intros i j Hi; simpl in *; [lia|].
  destruct i, j; simpl; auto.
  apply IH. lia.
Qed.

Lemma get_set l i b j :
  (0 <= i < Z.of_nat (List.length l))%Z ->
  get (set l i b) j = if Z.eqb j i then b else get l j.
Proof.
  intros Hi. unfold get, set.
  destruct (Z.leb_spec 0 i) as [_|]; [|lia].
  rewrite BuiltInFacts.set_nat_length.
  destruct (Z.eqb_spec j i) as [->|Hne].
  - destruct (Z.leb_spec 0 i); [|lia]. destruct (Z.ltb_spec i (Z.of_nat (List.length l))); [|lia].
    simpl. rewrite set_nat_nth by lia. rewrite Nat.eqb_refl. reflexivity.
  - destruct (Z.leb_spec 0 j); destruct (Z.ltb_spec j (Z.of_nat (List.length l))); simpl; auto.
    rewrite set_nat_nth by lia.
    destruct (Nat.eqb_spec (Z.to_nat j) (Z.to_nat i)); [lia|reflexivity].
Qed.

Lemma count_filter_checked l : forall k sel,
  k + List.length l = List.length sel ->
  List.length (filter_checked l sel (Z.of_nat k)) =
  List.length (filter (fun b => b) (skipn k sel)).
Proof.
  induction l as [|a l IH]; intros k sel Hk; simpl in *.
  - rewrite skipn_all2 by lia. reflexivity.
  - rewrite (LaunchFacts.skipn_nth_cons sel k false) by lia.
    unfold get.
    destruct (Z.leb_spec 0 (Z.of_nat k)); [|lia].
    destruct (Z.ltb_spec (Z.of_nat k) (Z.of_nat (List.length sel))); [|lia].
    cbn [andb]. rewrite Nat2Z.id.
    replace (Z.of_nat k + 1)%Z with (Z.of_nat (S k)) by lia.
    destruct (nth k sel false); cbn [filter List.length]; rewrite IH by lia; reflexivity.
Qed.

Lemma prefix_app p t : String.prefix p (p ++ t) = true.
Proof.
  induction p as [|c p IH]; simpl; [destruct t; reflexivity|].
  destruct (ascii_dec c c); [exact IH|contradiction].
Qed.

Lemma menu_items_cursor m l : forall n,
  map (String.prefix "→ ") (Menu.menu_items m l (Z.of_nat n)) =
  map (fun i => Z.eqb (Z.of_nat i) (currentIndex m)) (seq n (List.length l)).
Proof.
  induction l as [|a l IH]; intros n; [reflexivity|].
  cbn [Menu.menu_items map seq List.length].
  replace (Z.of_nat n + 1)%Z with (Z.of_nat (S n)) by lia.
  rewrite IH. f_equal.
  destruct (Z.eqb (Z.of_nat n) (currentIndex m)).
  - apply prefix_app.
  - reflexivity.
Qed.

End MenuFacts.

(* ================================================================== *)
(** * Facts about the emulator command, the confirmation and run *)

Module PipelineFacts.

Lemma ascii_lower_y c :
  Ascii.eqb (ascii_lower c) "y"%char = (Ascii.eqb c "y"%char || Ascii.eqb c "Y"%char).
Proof. destruct c as [[] [] [] [] [] [] [] []]; reflexivity. Qed.

Lemma inquirer_in subs s :
  Inquirer.selectAVDsInquirer subs = Some s -> In s subs /\ s <> [].
Proof.
  unfold Inquirer.selectAVDsInquirer. induction subs as [|x r IH]; simpl; [discriminate|].
  destruct (Inquirer.validate x) eqn:E.
  - intros H. destruct (IH H). auto.
  - intros H. injection H as <-. split; [auto|]. intros ->. simpl in E. discriminate.
Qed.

Lemma builtin_confirmed l keys sel m :
  snd (BuiltIn.selectAVDsBuiltIn l keys) = BuiltIn.Confirmed sel m -> sel <> [] /\ subseq sel l.
Proof.
  unfold BuiltIn.selectAVDsBuiltIn.
  destruct (BuiltIn.run_keys (BuiltIn.initial_menu l) keys) as [ev st] eqn:E.
  pose proof (BuiltInFacts.run_inv _ _ _ _ E) as H. cbn [snd]. intros ->.
  destruct H as [Ha [_ [_ [Hs [Hne _]]]]]. split; [exact Hne|].
  rewrite Hs. unfold BuiltIn.checked_avds. rewrite Ha. apply BuiltInFacts.filter_checked_subseq.
Qed.

Lemma getAVDList_resolved d logs avds :
  getAVDList d = (logs, Resolved avds) -> avds = parse_avds (stdout d).
Proof.
  unfold getAVDList. destruct (exec_error d); [discriminate|].
  destruct (parse_avds (stdout d)) eqn:E; [discriminate|].
  intros H. injection H as _ <-. reflexivity.
Qed.

Lemma getAVDList_rejected d :
  (exit_code d <> 0%Z \/ parse_avds (stdout d) = []) ->
  exists logs msg, getAVDList d = (logs, Rejected msg).
Proof.
  intros H. unfold getAVDList, exec_error.
  destruct (Z.eqb_spec (exit_code d) 0) as [E|E].
  - destruct H as [H|H]; [contradiction|]. rewrite H. eauto.
  - eauto.
Qed.

Lemma list_ascii_app s t :
  list_ascii_of_string (s ++ t) = (list_ascii_of_string s ++ list_ascii_of_string t)%list.
Proof. induction s as [|c s IH]; simpl; [reflexivity|]. rewrite IH. reflexivity. Qed.

Lemma split_nl_line n acc cur :
  (forall c, In c (list_ascii_of_string n) -> c <> JsString.newline) ->
  JsString.split_nl_aux (n ++ String JsString.newline acc) cur =
  (cur ++ n)%string :: JsString.split_nl_aux acc "".
Proof.
  revert cur; induction n as [|c n IH]; intros cur H; simpl.
  - rewrite ParseFacts.append_nil_r. reflexivity.
  - destruct (Ascii.eqb_spec c JsString.newline) as [E|E].
    + exfalso. apply (H c); simpl; auto.
    + rewrite IH by (intros x Hx; apply H; simpl; auto).
      rewrite <- ParseFacts.append_assoc. reflexivity.
Qed.

Lemma split_join names :
  (forall n, In n names -> forall c, In c (list_ascii_of_string n) -> c <> JsString.newline) ->
  JsString.split_nl (join_lines names) = (names ++ [""])%list.
Proof.
  unfold JsString.split_nl. induction names as [|n ns IH]; intros H; [reflexivity|].
  cbn [join_lines fold_right]. unfold lf. simpl (String JsString.newline EmptyString ++ _)%string.
  rewrite split_nl_line by (apply H; simpl; auto).
  change (fold_right _ "" ns) with (join_lines ns). rewrite IH by (intros x Hx; apply H; simpl; auto). reflexivity.
Qed.

Lemma join_nl_only_ws names :
  (forall n, In n names -> forall c, In c (list_ascii_of_string n) -> JsString.is_ws c = false) ->
  nl_only_ws (join_lines names).
Proof.
  unfold nl_only_ws. induction names as [|n ns IH]; intros H c Hc Hw; simpl in Hc; [contradiction|].
  unfold lf in Hc. rewrite list_ascii_app in Hc. apply in_app_or in Hc.
  destruct Hc as [Hc|[<-|Hc]].
  - rewrite (H n (or_introl eq_refl) c Hc) in Hw. discriminate.
  - reflexivity.
  - apply (IH (fun x Hx => H x (or_intror Hx)) c Hc Hw).
Qed.

End PipelineFacts.

(* ================================================================== *)
(** * Further properties of the code *)

(** Over a non-empty inventory, whatever keys are pressed, the cursor of
    the raw-keyboard selector stays on an inventory entry. *)
Theorem builtin_cursor_in_bounds (l : list string) (keys : list (option BuiltIn.key)) :
  l <> [] ->
  match snd (BuiltIn.selectAVDsBuiltIn l keys) with
  | BuiltIn.Waiting m | BuiltIn.Confirmed _ m | BuiltIn.Exited _ m =>
      (0 <= BuiltIn.currentIndex m < Z.of_nat (List.length l))%Z
  end.
Proof.
  intros Hl. unfold BuiltIn.selectAVDsBuiltIn.
  destruct (BuiltIn.run_keys (BuiltIn.initial_menu l) keys) as [ev st] eqn:E.
  assert (Hb : (0 <= BuiltIn.currentIndex (BuiltIn.initial_menu l) <
                Z.of_nat (List.length (BuiltIn.avds (BuiltIn.initial_menu l))))%Z).
  { simpl. destruct l; [contradiction|]. simpl. lia. }
  pose proof (MenuFacts.run_bounds _ _ _ _ E Hb) as H. simpl in H.
  destruct st; cbn [snd]; tauto.
Qed.

Lemma builtin_cursor_in_bounds_witness :
  ["A"; "B"] <> [] /\
  match snd (BuiltIn.selectAVDsBuiltIn ["A"; "B"]
               [Some {| BuiltIn.name := "up"; BuiltIn.ctrl := false |}]) with
  | BuiltIn.Waiting m | BuiltIn.Confirmed _ m | BuiltIn.Exited _ m =>
      (0 <= BuiltIn.currentIndex m < Z.of_nat (List.length ["A"; "B"]))%Z
  end.
Proof.
  assert (H : ["A"; "B"] <> []) by discriminate.
  split; [exact H|]. exact (builtin_cursor_in_bounds ["A"; "B"] [Some {| BuiltIn.name := "up"; BuiltIn.ctrl := false |}] H).
Defined.

(** Navigation wraps around: up on the first entry moves to the last,
    down on the last moves to the first. Up and down undo each other:
    from any cursor position, down then up, or up then down, returns to
    it. *)
Theorem builtin_up_down_inverse (m : BuiltIn.menu) (c1 c2 : bool) :
  (0 <= BuiltIn.currentIndex m < Z.of_nat (List.length (BuiltIn.avds m)))%Z ->
  match snd (BuiltIn.handleKeypress m (Some {| BuiltIn.name := "down"; BuiltIn.ctrl := c1 |})) with
  | BuiltIn.Waiting m1 =>
      match snd (BuiltIn.handleKeypress m1 (Some {| BuiltIn.name := "up"; BuiltIn.ctrl := c2 |})) with
      | BuiltIn.Waiting m2 => BuiltIn.currentIndex m2 = BuiltIn.currentIndex m
      | _ => False
      end
  | _ => False
  end /\
  match snd (BuiltIn.handleKeypress m (Some {| BuiltIn.name := "up"; BuiltIn.ctrl := c1 |})) with
  | BuiltIn.Waiting m1 =>
      match snd (BuiltIn.handleKeypress m1 (Some {| BuiltIn.name := "down"; BuiltIn.ctrl := c2 |})) with
      | BuiltIn.Waiting m2 => BuiltIn.currentIndex m2 = BuiltIn.currentIndex m
      | _ => False
      end
  | _ => False
  end /\
  (BuiltIn.currentIndex m = 0%Z ->
   match snd (BuiltIn.handleKeypress m (Some {| BuiltIn.name := "up"; BuiltIn.ctrl := c1 |})) with
   | BuiltIn.Waiting m1 => BuiltIn.currentIndex m1 = (Z.of_nat (List.length (BuiltIn.avds m)) - 1)%Z
   | _ => False
   end) /\
  (BuiltIn.currentIndex m = (Z.of_nat (List.length (BuiltIn.avds m)) - 1)%Z ->
   match snd (BuiltIn.handleKeypress m (Some {| BuiltIn.name := "down"; BuiltIn.ctrl := c1 |})) with
   | BuiltIn.Waiting m1 => BuiltIn.currentIndex m1 = 0%Z
   | _ => False
   end).
Proof.
  intros Hb. unfold BuiltIn.handleKeypress. cbn.
  split; [|split; [|split]]; try intros Hc;
    repeat (match goal with
            | |- context [if ?b then _ else _] => let E := fresh "E" in destruct b eqn:E
            end; cbn);
    repeat match goal with
           | E : (_ >? _)%Z = _ |- _ => rewrite Z.gtb_ltb in E
           | E : (_ <? _)%Z = _ |- _ => first [apply Z.ltb_lt in E | apply Z.ltb_ge in E]
           | E : context [if ?b then _ else _] |- _ =>
               let F := fresh "F" in destruct b eqn:F
           end; lia.
Qed.

Lemma builtin_up_down_inverse_witness :
  (0 <= BuiltIn.currentIndex (BuiltIn.initial_menu ["A"; "B"; "C"]) <
   Z.of_nat (List.length (BuiltIn.avds (BuiltIn.initial_menu ["A"; "B"; "C"]))))%Z /\
  match snd (BuiltIn.handleKeypress (BuiltIn.initial_menu ["A"; "B"; "C"])
               (Some {| BuiltIn.name := "down"; BuiltIn.ctrl := false |})) with
  | BuiltIn.Waiting m1 =>
      match snd (BuiltIn.handleKeypress m1 (Some {| BuiltIn.name := "up"; BuiltIn.ctrl := false |})) with
      | BuiltIn.Waiting m2 =>
          BuiltIn.currentIndex m2 = BuiltIn.currentIndex (BuiltIn.initial_menu ["A"; "B"; "C"])
      | _ => False
      end
  | _ => False
  end.
Proof.
  assert (H : (0 <= BuiltIn.currentIndex (BuiltIn.initial_menu ["A"; "B"; "C"]) <
               Z.of_nat (List.length (BuiltIn.avds (BuiltIn.initial_menu ["A"; "B"; "C"]))))%Z)
    by (simpl; lia).
  split; [exact H|]. exact (proj1 (builtin_up_down_inverse _ false false H)).
Defined.

(** Space flips the checkbox under the cursor and no other, and leaves
    the cursor where it is. *)
Theorem builtin_space_toggles_cursor_only (m : BuiltIn.menu) (c : bool) :
  (0 <= BuiltIn.currentIndex m < Z.of_nat (List.length (BuiltIn.selected m)))%Z ->
  match snd (BuiltIn.handleKeypress m (Some {| BuiltIn.name := "space"; BuiltIn.ctrl := c |})) with
  | BuiltIn.Waiting m' =>
      BuiltIn.currentIndex m' = BuiltIn.currentIndex m /\
      BuiltIn.avds m' = BuiltIn.avds m /\
      forall j, BuiltIn.get (BuiltIn.selected m') j =
                if Z.eqb j (BuiltIn.currentIndex m)
                then negb (BuiltIn.get (BuiltIn.selected m) (BuiltIn.currentIndex m))
                else BuiltIn.get (BuiltIn.selected m) j
  | _ => False
  end.
Proof.
  intros Hb. unfold BuiltIn.handleKeypress. cbn.
  split; [reflexivity|]. split; [reflexivity|].
  intros j. apply MenuFacts.get_set. exact Hb.
Qed.

Lemma builtin_space_toggles_cursor_only_witness :
  (0 <= BuiltIn.currentIndex (BuiltIn.initial_menu ["A"; "B"]) <
   Z.of_nat (List.length (BuiltIn.selected (BuiltIn.initial_menu ["A"; "B"]))))%Z /\
  match snd (BuiltIn.handleKeypress (BuiltIn.initial_menu ["A"; "B"])
               (Some {| BuiltIn.name := "space"; BuiltIn.ctrl := false |})) with
  | BuiltIn.Waiting m' =>
      BuiltIn.currentIndex m' = BuiltIn.currentIndex (BuiltIn.initial_menu ["A"; "B"]) /\
      BuiltIn.avds m' = BuiltIn.avds (BuiltIn.initial_menu ["A"; "B"]) /\
      forall j, BuiltIn.get (BuiltIn.selected m') j =
                if Z.eqb j (BuiltIn.currentIndex (BuiltIn.initial_menu ["A"; "B"]))
                then negb (BuiltIn.get (BuiltIn.selected (BuiltIn.initial_menu ["A"; "B"]))
                                       (BuiltIn.currentIndex (BuiltIn.initial_menu ["A"; "B"])))
                else BuiltIn.get (BuiltIn.selected (BuiltIn.initial_menu ["A"; "B"])) j
  | _ => False
  end.
Proof.
  assert (H : (0 <= BuiltIn.currentIndex (BuiltIn.initial_menu ["A"; "B"]) <
               Z.of_nat (List.length (BuiltIn.selected (BuiltIn.initial_menu ["A"; "B"]))))%Z)
    by (simpl; lia).
  split; [exact H|]. exact (builtin_space_toggles_cursor_only _ false H).
Defined.

(** Over a non-empty inventory, while the selector waits for keys, the
    "Selected: n AVD(s)" count the menu shows is the number of AVDs
    Enter would return, and the item lines carry the cursor arrow
    exactly at the cursor's index. (Over an empty one, Space writes past
    the end of [selected], which JavaScript counts and [set] does not.) *)
Theorem menu_count_matches_selection (l : list string) (keys : list (option BuiltIn.key)) :
  l <> [] ->
  match snd (BuiltIn.selectAVDsBuiltIn l keys) with
  | BuiltIn.Waiting m =>
      Menu.selectedCount m = List.length (BuiltIn.checked_avds m) /\
      map (String.prefix "→ ") (Menu.menu_items m (BuiltIn.avds m) 0) =
      map (fun i => Z.eqb (Z.of_nat i) (BuiltIn.currentIndex m)) (seq 0 (List.length l))
  | _ => True
  end.
Proof.
  intros _. unfold BuiltIn.selectAVDsBuiltIn.
  destruct (BuiltIn.run_keys (BuiltIn.initial_menu l) keys) as [ev st] eqn:E.
  pose proof (BuiltInFacts.run_inv _ _ _ _ E) as H.
  simpl in H. rewrite repeat_length in H.
  destruct st as [m|sel m|c m]; cbn [snd]; auto.
  destruct H as [Ha [_ [Hl _]]]. split.
  - unfold Menu.selectedCount, BuiltIn.checked_avds.
    assert (Hk : 0 + List.length (BuiltIn.avds m) = List.length (BuiltIn.selected m))
      by (rewrite Ha, Hl; reflexivity).
    pose proof (MenuFacts.count_filter_checked (BuiltIn.avds m) 0 (BuiltIn.selected m) Hk) as Hc.
    simpl in Hc. rewrite Hc. reflexivity.
  - rewrite <- Ha. exact (MenuFacts.menu_items_cursor m (BuiltIn.avds m) 0).
Qed.

Lemma menu_count_matches_selection_witness :
  ["A"; "B"] <> [] /\
  match snd (BuiltIn.selectAVDsBuiltIn ["A"; "B"]
               [Some {| BuiltIn.name := "down"; BuiltIn.ctrl := false |};
                Some {| BuiltIn.name := "space"; BuiltIn.ctrl := false |}]) with
  | BuiltIn.Waiting m =>
      Menu.selectedCount m = List.length (BuiltIn.checked_avds m) /\
      map (String.prefix "→ ") (Menu.menu_items m (BuiltIn.avds m) 0) =
      map (fun i => Z.eqb (Z.of_nat i) (BuiltIn.currentIndex m)) (seq 0 (List.length ["A"; "B"]))
  | _ => True
  end.
Proof.
  assert (H : ["A"; "B"] <> []) by discriminate.
  split; [exact H|].
  exact (menu_count_matches_selection ["A"; "B"]
           [Some {| BuiltIn.name := "down"; BuiltIn.ctrl := false |};
            Some {| BuiltIn.name := "space"; BuiltIn.ctrl := false |}] H).
Defined.

(** A key that none of the [switch] cases names (and [c] without Ctrl)
    changes nothing: no output, same menu, still waiting. *)
Theorem builtin_other_keys_ignored (m : BuiltIn.menu) (k : BuiltIn.key) :
  ~ In (BuiltIn.name k) ["up"; "down"; "space"; "return"; "q"] ->
  (BuiltIn.name k <> "c" \/ BuiltIn.ctrl k = false) ->
  BuiltIn.handleKeypress m (Some k) = ([], BuiltIn.Waiting m).
Proof.
  intros Hn Hc. unfold BuiltIn.handleKeypress.
  destruct (String.eqb_spec (BuiltIn.name k) "up") as [E|_]; [rewrite E in Hn; simpl in Hn; tauto|].
  destruct (String.eqb_spec (BuiltIn.name k) "down") as [E|_]; [rewrite E in Hn; simpl in Hn; tauto|].
  destruct (String.eqb_spec (BuiltIn.name k) "space") as [E|_]; [rewrite E in Hn; simpl in Hn; tauto|].
  destruct (String.eqb_spec (BuiltIn.name k) "return") as [E|_]; [rewrite E in Hn; simpl in Hn; tauto|].
  destruct (String.eqb_spec (BuiltIn.name k) "q") as [E|_]; [rewrite E in Hn; simpl in Hn; tauto|].
  destruct (String.eqb_spec (BuiltIn.name k) "c") as [E|_]; [|reflexivity].
  destruct Hc as [Hc|Hc]; [contradiction|]. rewrite Hc. reflexivity.
Qed.

Lemma builtin_other_keys_ignored_witness :
  ~ In (BuiltIn.name {| BuiltIn.name := "x"; BuiltIn.ctrl := true |}) ["up"; "down"; "space"; "return"; "q"] /\
  (BuiltIn.name {| BuiltIn.name := "x"; BuiltIn.ctrl := true |} <> "c" \/
   BuiltIn.ctrl {| BuiltIn.name := "x"; BuiltIn.ctrl := true |} = false) /\
  BuiltIn.handleKeypress (BuiltIn.initial_menu ["A"]) (Some {| BuiltIn.name := "x"; BuiltIn.ctrl := true |})
  = ([], BuiltIn.Waiting (BuiltIn.initial_menu ["A"])).
Proof.
  assert (H1 : ~ In (BuiltIn.name {| BuiltIn.name := "x"; BuiltIn.ctrl := true |})
                    ["up"; "down"; "space"; "return"; "q"])
    by (simpl; intuition discriminate).
  assert (H2 : BuiltIn.name {| BuiltIn.name := "x"; BuiltIn.ctrl := true |} <> "c" \/
               BuiltIn.ctrl {| BuiltIn.name := "x"; BuiltIn.ctrl := true |} = false)
    by (left; simpl; discriminate).
  split; [exact H1|]. split; [exact H2|].
  exact (builtin_other_keys_ignored _ _ H1 H2).
Defined.

(** On the readline path, the launch is confirmed exactly when the
    answer starts with "y" or "Y". *)
Theorem confirm_readline_yes (b : bool) (answer : string) :
  confirmLaunch false b answer = true <->
  exists rest, answer = ("y" ++ rest)%string \/ answer = ("Y" ++ rest)%string.
Proof.
  unfold confirmLaunch. destruct answer as [|c r]; cbn [toLowerCase String.prefix append].
  - split; [discriminate|]. intros [rest [H|H]]; discriminate.
  - pose proof (PipelineFacts.ascii_lower_y c) as E.
    destruct (ascii_dec "y" (ascii_lower c)) as [Hy|Hy].
    + rewrite <- Hy in E. simpl in E. split; [intros _|intros _; destruct (toLowerCase r); reflexivity]. exists r.
      destruct (Ascii.eqb_spec c "y"); [left; congruence|].
      destruct (Ascii.eqb_spec c "Y"); [right; congruence|]. discriminate E.
    + split; [discriminate|]. intros [rest [H|H]]; injection H as Hc _; subst c;
        exfalso; apply Hy; reflexivity.
Qed.

(** When discovery fails (the command exits with a non-zero status or
    lists no AVD), [run] exits the process with status 1 before any
    launch, whatever input would follow. *)
Theorem run_discovery_failure_exits (u : bool) (r : Pipeline.round) (rest : list Pipeline.round) :
  (exit_code (Pipeline.discovery r) <> 0%Z \/ parse_avds (stdout (Pipeline.discovery r)) = []) ->
  snd (Pipeline.run u (r :: rest)) = Pipeline.ProcessExit 1 /\
  Pipeline.launches (fst (Pipeline.run u (r :: rest))) = [] /\
  Pipeline.run u (r :: rest) = Pipeline.run u [r].
Proof.
  intros H. destruct (PipelineFacts.getAVDList_rejected _ H) as [logs [msg E]].
  cbn [Pipeline.run]. rewrite E. split; [|split]; reflexivity.
Qed.

Lemma run_discovery_failure_exits_witness :
  (exit_code {| exit_code := 127; stdout := ""; exec_message := "emulator: not found" |} <> 0%Z \/
   parse_avds (stdout {| exit_code := 127; stdout := ""; exec_message := "emulator: not found" |}) = []) /\
  snd (Pipeline.run false
         [{| Pipeline.discovery := {| exit_code := 127; stdout := ""; exec_message := "emulator: not found" |};
             Pipeline.keys := []; Pipeline.submissions := []; Pipeline.inq_mode := Parallel;
             Pipeline.mode_answer := ""; Pipeline.inq_confirm := true; Pipeline.confirm_answer := "y";
             Pipeline.spawn_env := fun _ => Launch.ExecOk; Pipeline.completion := [];
             Pipeline.launch_more := false |}]) = Pipeline.ProcessExit 1.
Proof.
  assert (H : exit_code {| exit_code := 127; stdout := ""; exec_message := "emulator: not found" |} <> 0%Z \/
              parse_avds (stdout {| exit_code := 127; stdout := ""; exec_message := "emulator: not found" |}) = [])
    by (left; simpl; lia).
  split; [exact H|].
  exact (proj1 (run_discovery_failure_exits false
    {| Pipeline.discovery := {| exit_code := 127; stdout := ""; exec_message := "emulator: not found" |};
       Pipeline.keys := []; Pipeline.submissions := []; Pipeline.inq_mode := Parallel;
       Pipeline.mode_answer := ""; Pipeline.inq_confirm := true; Pipeline.confirm_answer := "y";
       Pipeline.spawn_env := fun _ => Launch.ExecOk; Pipeline.completion := [];
       Pipeline.launch_more := false |} [] H)).
Defined.

(** A declined confirmation launches nothing and ends the run: the rest
    of the input is never consulted. *)
Theorem run_cancel_launches_nothing (u : bool) (r : Pipeline.round) (rest : list Pipeline.round) :
  confirmLaunch u (Pipeline.inq_confirm r) (Pipeline.confirm_answer r) = false ->
  Pipeline.launches (fst (Pipeline.run u (r :: rest))) = [] /\
  Pipeline.run u (r :: rest) = Pipeline.run u [r].
Proof.
  intros H. cbn [Pipeline.run]. rewrite H.
  destruct (getAVDList (Pipeline.discovery r)) as [logs [avds|msg]]; [|split; reflexivity].
  destruct u;
    [destruct (Inquirer.selectAVDsInquirer (Pipeline.submissions r))
    |destruct (snd (BuiltIn.selectAVDsBuiltIn avds (Pipeline.keys r)))];
    split; reflexivity.
Qed.

Lemma run_cancel_launches_nothing_witness :
  confirmLaunch false true "n" = false /\
  Pipeline.launches
    (fst (Pipeline.run false
       [{| Pipeline.discovery := {| exit_code := 0; stdout := "Pixel_5"; exec_message := "" |};
           Pipeline.keys := [Some {| BuiltIn.name := "space"; BuiltIn.ctrl := false |};
                             Some {| BuiltIn.name := "return"; BuiltIn.ctrl := false |}];
           Pipeline.submissions := []; Pipeline.inq_mode := Parallel;
           Pipeline.mode_answer := ""; Pipeline.inq_confirm := true; Pipeline.confirm_answer := "n";
           Pipeline.spawn_env := fun _ => Launch.ExecOk; Pipeline.completion := [0];
           Pipeline.launch_more := false |}])) = [].
Proof.
  assert (H : confirmLaunch false true "n" = false) by reflexivity.
  split; [exact H|].
  exact (proj1 (run_cancel_launches_nothing false
    {| Pipeline.discovery := {| exit_code := 0; stdout := "Pixel_5"; exec_message := "" |};
       Pipeline.keys := [Some {| BuiltIn.name := "space"; BuiltIn.ctrl := false |};
                         Some {| BuiltIn.name := "return"; BuiltIn.ctrl := false |}];
       Pipeline.submissions := []; Pipeline.inq_mode := Parallel;
       Pipeline.mode_answer := ""; Pipeline.inq_confirm := true; Pipeline.confirm_answer := "n";
       Pipeline.spawn_env := fun _ => Launch.ExecOk; Pipeline.completion := [0];
       Pipeline.launch_more := false |} [] H)).
Defined.

(** On the raw-keyboard path, [run] launches at most one batch: it
    comes from the first round, issues [exec] for a non-empty list, and
    that list is a subsequence of the AVDs discovery parsed. *)
Theorem run_builtin_single_batch (rounds : list Pipeline.round) :
  match Pipeline.launches (fst (Pipeline.run false rounds)) with
  | [] => True
  | [tr] => exists r rest, rounds = r :: rest /\ Launch.spawned tr <> [] /\
            subseq (Launch.spawned tr) (parse_avds (stdout (Pipeline.discovery r)))
  | _ => False
  end.
Proof.
  destruct rounds as [|r rest]; [exact I|]. cbn [Pipeline.run].
  destruct (getAVDList (Pipeline.discovery r)) as [logs [avds|msg]] eqn:Eg; [|exact I].
  destruct (snd (BuiltIn.selectAVDsBuiltIn avds (Pipeline.keys r))) as [m|sel m|c m] eqn:Es;
    try exact I.
  destruct (confirmLaunch false (Pipeline.inq_confirm r) (Pipeline.confirm_answer r)); [|exact I].
  destruct (PipelineFacts.builtin_confirmed _ _ _ _ Es) as [Hsel Hsub].
  rewrite (PipelineFacts.getAVDList_resolved _ _ _ Eg) in Hsub.
  match goal with
  | |- context [Launch.execute ?e ?md ?o sel] =>
      destruct (LaunchFacts.spawned_execute e md o sel) as [_ [Hne _]];
      pose proof (LaunchFacts.spawned_execute_subseq e md o sel) as Hs;
      destruct (Launch.execute e md o sel) as [tr res] eqn:Ex
  end.
  cbn [fst] in Hne, Hs.
  destruct res; cbn; exists r, rest; (split; [reflexivity|]);
    (split; [exact (Hne Hsel)|exact (LaunchFacts.subseq_trans _ _ _ Hs Hsub)]).
Qed.


(** When every [exec] of a round throws synchronously (the system cannot
    spawn a process), a launch in that round rejects, [run]'s [catch]
    prints the error and exits with status 1: that batch is the only one,
    and no later round is consulted. *)
Theorem run_launch_rejection_exits (u : bool) (r : Pipeline.round) (rest : list Pipeline.round) :
  (forall d, Launch.completes (Pipeline.spawn_env r) d = false) ->
  Pipeline.launches (fst (Pipeline.run u (r :: rest))) <> [] ->
  snd (Pipeline.run u (r :: rest)) = Pipeline.ProcessExit 1 /\
  List.length (Pipeline.launches (fst (Pipeline.run u (r :: rest)))) = 1 /\
  Pipeline.run u (r :: rest) = Pipeline.run u [r].
Proof.
  intros Hall. cbn [Pipeline.run].
  destruct (getAVDList (Pipeline.discovery r)) as [logs [avds|msg]] eqn:Eg;
    [|intros H; exfalso; apply H; reflexivity].
  assert (Hpick : forall sel, sel <> [] -> forall md, exists tr msg, Launch.execute (Pipeline.spawn_env r) md (Pipeline.completion r) sel
                             = (tr, Rejected msg)).
  { intros sel Hs md. destruct (LaunchFacts.all_throw_first _ sel Hs Hall) as [msg Hf].
    pose proof (LaunchFacts.execute_rejects _ md (Pipeline.completion r) sel msg Hf) as Hx.
    destruct (Launch.execute (Pipeline.spawn_env r) md (Pipeline.completion r) sel) as [tr res].
    cbn [snd] in Hx. subst res. eauto. }
  destruct u.
  - destruct (Inquirer.selectAVDsInquirer (Pipeline.submissions r)) as [sel|] eqn:Es;
      [|intros H; exfalso; apply H; reflexivity].
    destruct (PipelineFacts.inquirer_in _ _ Es) as [_ Hne].
    destruct (confirmLaunch true (Pipeline.inq_confirm r) (Pipeline.confirm_answer r)) eqn:Ec;
      [|intros H; exfalso; apply H; reflexivity].
    match goal with
    | |- context [Launch.execute ?e ?md ?o sel] =>
        destruct (Hpick sel Hne md) as [tr [msg Ex]]; rewrite Ex
    end.
    intros _. split; [|split]; reflexivity.
  - destruct (snd (BuiltIn.selectAVDsBuiltIn avds (Pipeline.keys r))) as [m|sel m|c m] eqn:Es;
      try (intros H; exfalso; apply H; reflexivity).
    destruct (PipelineFacts.builtin_confirmed _ _ _ _ Es) as [Hne _].
    destruct (confirmLaunch false (Pipeline.inq_confirm r) (Pipeline.confirm_answer r)) eqn:Ec;
      [|intros H; exfalso; apply H; reflexivity].
    match goal with
    | |- context [Launch.execute ?e ?md ?o sel] =>
        destruct (Hpick sel Hne md) as [tr [msg Ex]]; rewrite Ex
    end.
    intros _. split; [|split]; reflexivity.
Qed.

Lemma run_launch_rejection_exits_witness :
  (forall d, Launch.completes (fun _ => Launch.ExecThrows "spawn ENOMEM") d = false) /\
  Pipeline.launches
    (fst (Pipeline.run false
       [{| Pipeline.discovery := {| exit_code := 0; stdout := "Pixel_5"; exec_message := "" |};
           Pipeline.keys := [Some {| BuiltIn.name := "space"; BuiltIn.ctrl := false |};
                             Some {| BuiltIn.name := "return"; BuiltIn.ctrl := false |}];
           Pipeline.submissions := []; Pipeline.inq_mode := Parallel;
           Pipeline.mode_answer := ""; Pipeline.inq_confirm := true; Pipeline.confirm_answer := "y";
           Pipeline.spawn_env := fun _ => Launch.ExecThrows "spawn ENOMEM";
           Pipeline.completion := [0]; Pipeline.launch_more := false |}])) <> [] /\
  snd (Pipeline.run false
       [{| Pipeline.discovery := {| exit_code := 0; stdout := "Pixel_5"; exec_message := "" |};
           Pipeline.keys := [Some {| BuiltIn.name := "space"; BuiltIn.ctrl := false |};
                             Some {| BuiltIn.name := "return"; BuiltIn.ctrl := false |}];
           Pipeline.submissions := []; Pipeline.inq_mode := Parallel;
           Pipeline.mode_answer := ""; Pipeline.inq_confirm := true; Pipeline.confirm_answer := "y";
           Pipeline.spawn_env := fun _ => Launch.ExecThrows "spawn ENOMEM";
           Pipeline.completion := [0]; Pipeline.launch_more := false |}]) = Pipeline.ProcessExit 1.
Proof.
  assert (H1 : forall d, Launch.completes (fun _ => Launch.ExecThrows "spawn ENOMEM") d = false)
    by (intros d; reflexivity).
  assert (H2 : Pipeline.launches
    (fst (Pipeline.run false
       [{| Pipeline.discovery := {| exit_code := 0; stdout := "Pixel_5"; exec_message := "" |};
           Pipeline.keys := [Some {| BuiltIn.name := "space"; BuiltIn.ctrl := false |};
                             Some {| BuiltIn.name := "return"; BuiltIn.ctrl := false |}];
           Pipeline.submissions := []; Pipeline.inq_mode := Parallel;
           Pipeline.mode_answer := ""; Pipeline.inq_confirm := true; Pipeline.confirm_answer := "y";
           Pipeline.spawn_env := fun _ => Launch.ExecThrows "spawn ENOMEM";
           Pipeline.completion := [0]; Pipeline.launch_more := false |}])) <> [])
    by (vm_compute; discriminate).
  split; [exact H1|]. split; [exact H2|].
  exact (proj1 (run_launch_rejection_exits false
    {| Pipeline.discovery := {| exit_code := 0; stdout := "Pixel_5"; exec_message := "" |};
       Pipeline.keys := [Some {| BuiltIn.name := "space"; BuiltIn.ctrl := false |};
                         Some {| BuiltIn.name := "return"; BuiltIn.ctrl := false |}];
       Pipeline.submissions := []; Pipeline.inq_mode := Parallel;
       Pipeline.mode_answer := ""; Pipeline.inq_confirm := true; Pipeline.confirm_answer := "y";
       Pipeline.spawn_env := fun _ => Launch.ExecThrows "spawn ENOMEM";
       Pipeline.completion := [0]; Pipeline.launch_more := false |} [] H1 H2)).
Defined.

(** Round trip of discovery: when the command prints the names one per
    line, each non-empty and without whitespace, the parse gives back
    exactly those names, in order. *)
Theorem parse_avds_join_lines (names : list string) :
  forallb (fun n => negb (String.eqb n "") &&
                    forallb (fun c => negb (JsString.is_ws c)) (list_ascii_of_string n)) names = true ->
  parse_avds (join_lines names) = names.
Proof.
  intros H. rewrite forallb_forall in H.
  assert (Hne : forall n, In n names -> n <> "").
  { intros n Hn E. specialize (H n Hn). rewrite E in H. discriminate. }
  assert (Hws : forall n, In n names -> forall c, In c (list_ascii_of_string n) -> JsString.is_ws c = false).
  { intros n Hn c Hc. specialize (H n Hn). apply andb_prop in H. destruct H as [_ H].
    rewrite forallb_forall in H. specialize (H c Hc). destruct (JsString.is_ws c); [discriminate|reflexivity]. }
  rewrite ParseFacts.parse_agrees by (apply PipelineFacts.join_nl_only_ws; exact Hws).
  unfold spec_parse_avds.
  rewrite PipelineFacts.split_join.
  2:{ intros n Hn c Hc E. specialize (Hws n Hn c Hc). rewrite E in Hws. discriminate. }
  rewrite map_app, filter_app. cbn [map filter]. simpl (negb (JsString.trim "" =? "")).
  rewrite app_nil_r.
  clear H. induction names as [|n ns IH]; [reflexivity|].
  cbn [map filter]. rewrite (ParseFacts.trim_no_ws n) by (apply Hws; left; reflexivity).
  destruct (String.eqb_spec n "") as [E|E]; [exfalso; apply (Hne n); [left|]; auto|].
  cbn [negb]. f_equal. apply IH.
  - intros x Hx. apply Hne. right. exact Hx.
  - intros x Hx. apply Hws. right. exact Hx.
Qed.

Lemma parse_avds_join_lines_witness :
  forallb (fun n => negb (String.eqb n "") &&
                    forallb (fun c => negb (JsString.is_ws c)) (list_ascii_of_string n))
          ["Pixel_5"; "Pixel_7"] = true /\
  parse_avds (join_lines ["Pixel_5"; "Pixel_7"]) = ["Pixel_5"; "Pixel_7"].
Proof.
  assert (H : forallb (fun n => negb (String.eqb n "") &&
                                forallb (fun c => negb (JsString.is_ws c)) (list_ascii_of_string n))
                      ["Pixel_5"; "Pixel_7"] = true) by reflexivity.
  split; [exact H|]. exact (parse_avds_join_lines _ H).
Defined.
